(** * m9dicts.api: path accessor and tree builder / converter

    A shallow embedding of [src/m9dicts/api.py]: the path expression
    parser ([_jsnp_unescape], [_split_path]), the accessor [get], and the
    structural converters [make] / [convert_to].

    Python values are an inductive type, Python exceptions are the [Raise]
    branch of an error monad, text is [string] (byte strings: the model
    covers ASCII text), integers are [Z].  Mappings are association lists
    in iteration order, since the ordered variants and records depend on
    that order. *)

From Stdlib Require Import ZArith List String Ascii Bool Lia DecimalString.
Import ListNotations.
Set Warnings "-register-all".
Open Scope string_scope.
Open Scope list_scope.

(** ** Exceptions and the error monad *)

(** The exception classes the module can meet.  Message texts are those of
    CPython 3 (abridged where CPython interpolates object reprs). *)
Inductive exn : Type :=
| TypeError (msg : string)
| KeyError (key_repr : string)
| IndexError (msg : string)
| ValueError (msg : string).

Inductive result (A : Type) : Type :=
| Ret (a : A)
| Raise (e : exn).
Arguments Ret {A} a.
Arguments Raise {A} e.

Definition bind {A B : Type} (m : result A) (f : A -> result B) : result B :=
  match m with
  | Ret a => f a
  | Raise e => Raise e
  end.

Notation "x <- m ;; k" := (bind m (fun x => k))
  (at level 61, m at next level, right associativity).

(** A generator expression consumed by a container constructor, or a list
    comprehension: elements are produced left to right and the first
    exception propagates. *)
Definition mapM {A B : Type} (f : A -> result B) : list A -> result (list B) :=
  fix go (l : list A) : result (list B) :=
    match l with
    | [] => Ret []
    | a :: r => b <- f a ;; bs <- go r ;; Ret (b :: bs)
    end.

(** [repr] of a text value (keys without quote or escape characters). *)
Definition py_repr (s : string) : string := "'" ++ s ++ "'".

(** [str(exc)]: a [KeyError] prints the repr of its key, which is what the
    constructor stores. *)
Definition str_exc (e : exn) : string :=
  match e with
  | TypeError m => m
  | KeyError k => k
  | IndexError m => m
  | ValueError m => m
  end.

(** ** Values *)

(** The class of a mapping object: the built-in [dict], [OrderedDict], or
    one of the mergeable classes of [m9dicts.dicts], which carry a merge
    policy and an ordering flag. *)
Inductive dict_class : Type :=
| DictPlain
| DictOrdered
| MDict (merge : string) (ordered : bool).

(** Plain and lifted data.  [PDict] and [PNamedTuple] list their items in
    iteration order.  [PGenerator] is an unconsumed generator object: the
    module creates one whenever it rebuilds a sequence, and hands it to the
    constructor of the sequence's type. *)
Inductive pyval : Type :=
| PNone
| PBool (b : bool)
| PInt (n : Z)
| PStr (s : string)
| PList (xs : list pyval)
| PTuple (xs : list pyval)
| PDict (cls : dict_class) (items : list (string * pyval))
| PNamedTuple (name : string) (fields : list (string * pyval))
| PGenerator.

(** Induction over values that reaches inside the containers. *)
Section pyval_induction.
Variable P : pyval -> Prop.
Hypothesis HNone : P PNone.
Hypothesis HBool : forall b, P (PBool b).
Hypothesis HInt : forall n, P (PInt n).
Hypothesis HStr : forall s, P (PStr s).
Hypothesis HList : forall xs, Forall P xs -> P (PList xs).
Hypothesis HTuple : forall xs, Forall P xs -> P (PTuple xs).
Hypothesis HDict : forall cls items,
    Forall (fun kv => P (snd kv)) items -> P (PDict cls items).
Hypothesis HNamedTuple : forall name fields,
    Forall (fun kv => P (snd kv)) fields -> P (PNamedTuple name fields).
Hypothesis HGenerator : P PGenerator.

Fixpoint pyval_nested_ind (v : pyval) : P v :=
  match v with
  | PNone => HNone
  | PBool b => HBool b
  | PInt n => HInt n
  | PStr s => HStr s
  | PList xs =>
      HList xs
        ((fix all (l : list pyval) : Forall P l :=
            match l with
            | [] => Forall_nil P
            | x :: r => Forall_cons x (pyval_nested_ind x) (all r)
            end) xs)
  | PTuple xs =>
      HTuple xs
        ((fix all (l : list pyval) : Forall P l :=
            match l with
            | [] => Forall_nil P
            | x :: r => Forall_cons x (pyval_nested_ind x) (all r)
            end) xs)
  | PDict cls items =>
      HDict cls items
        ((fix all (l : list (string * pyval))
            : Forall (fun kv => P (snd kv)) l :=
            match l with
            | [] => Forall_nil _
            | kv :: r =>
                Forall_cons kv (pyval_nested_ind (snd kv)) (all r)
            end) items)
  | PNamedTuple name fields =>
      HNamedTuple name fields
        ((fix all (l : list (string * pyval))
            : Forall (fun kv => P (snd kv)) l :=
            match l with
            | [] => Forall_nil _
            | kv :: r =>
                Forall_cons kv (pyval_nested_ind (snd kv)) (all r)
            end) fields)
  | PGenerator => HGenerator
  end.
End pyval_induction.

(** ** Module constants *)

Definition PATH_SEPS : list ascii := ["/"%char; "."%char].

Definition NAMEDTUPLE_CLS_KEY : string := "namedtuple_cls__".

(** Modelled from the spec: [m9dicts.globals] is not part of the sources at
    hand.  The four merge policies of the registry (REPLACE, NO_REPLACE,
    DICTS, DICTS_AND_LISTS) are four distinct identifiers; only membership
    in [MERGE_STRATEGIES] is ever used below. *)
Definition MS_REPLACE : string := "replace".
Definition MS_NO_REPLACE : string := "noreplace".
Definition MS_DICTS : string := "merge_dicts".
Definition MS_DICTS_AND_LISTS : string := "merge_dicts_and_lists".
Definition MERGE_STRATEGIES : list string :=
  [MS_REPLACE; MS_NO_REPLACE; MS_DICTS; MS_DICTS_AND_LISTS].

(** Modelled from the spec: [m9dicts.dicts.get_mdict_class] is not part of
    the sources at hand.  It selects the Mergeable Mapping class that stores
    the given policy and ordering flag. *)
Definition get_mdict_class (merge : string) (ordered : bool) : dict_class :=
  MDict merge ordered.

(** Modelled from the spec: [m9dicts.utils] is not part of the sources at
    hand.  Mapping-like values are the mappings; record-like values are the
    named tuples; Sequence-like values are the iterables that are neither
    text nor mappings.  A named tuple is a tuple, hence Sequence-like, which
    is why [make] tests [is_namedtuple] before [is_list_like]. *)
Definition is_dict_like (obj : pyval) : bool :=
  match obj with PDict _ _ => true | _ => false end.

Definition is_namedtuple (obj : pyval) : bool :=
  match obj with PNamedTuple _ _ => true | _ => false end.

Definition is_list_like (obj : pyval) : bool :=
  match obj with
  | PList _ | PTuple _ | PNamedTuple _ _ | PGenerator => true
  | _ => false
  end.

(** ** Built-in operations on text *)

(** [sep in path] for a one-character [sep]. *)
Fixpoint str_contains (sep : ascii) (s : string) : bool :=
  match s with
  | EmptyString => false
  | String c r => Ascii.eqb c sep || str_contains sep r
  end.

(** [s.split(sep)] for a one-character [sep]: one piece more than there are
    occurrences of [sep], empty pieces included. *)
Fixpoint str_split (sep : ascii) (s : string) : list string :=
  match s with
  | EmptyString => [EmptyString]
  | String c r =>
      if Ascii.eqb c sep then EmptyString :: str_split sep r
      else match str_split sep r with
           | piece :: pieces => String c piece :: pieces
           | [] => [String c EmptyString]
           end
  end.

(** Truth value of a text: empty text is false. *)
Definition str_truth (s : string) : bool :=
  match s with EmptyString => false | _ => true end.

(** [s.replace(old, new)] for a two-character [old = a b]: occurrences are
    replaced left to right and do not overlap. *)
Fixpoint str_replace2 (a b : ascii) (new : string) (s : string) : string :=
  match s with
  | String c (String d rest as tl) =>
      if Ascii.eqb c a && Ascii.eqb d b
      then new ++ str_replace2 a b new rest
      else String c (str_replace2 a b new tl)
  | _ => s
  end.

Definition is_digit (c : ascii) : bool :=
  let n := nat_of_ascii c in (48 <=? n)%nat && (n <=? 57)%nat.

Definition is_nonzero_digit (c : ascii) : bool :=
  let n := nat_of_ascii c in (49 <=? n)%nat && (n <=? 57)%nat.

Definition digit_value (c : ascii) : Z := Z.of_nat (nat_of_ascii c) - 48.

(** The longest prefix of decimal digits. *)
Fixpoint take_digits (s : string) : string :=
  match s with
  | String c r => if is_digit c then String c (take_digits r) else EmptyString
  | EmptyString => EmptyString
  end.

(** [_JSNP_GET_ARRAY_IDX_REG.match(s)] for the pattern
    "0 or [1-9][0-9]* ": [match] anchors the pattern at the start of [s]
    only, and returns the matched prefix ([None] when there is no match).
    The first alternative is tried first. *)
Definition _JSNP_GET_ARRAY_IDX_REG_match (s : string) : option string :=
  match s with
  | String c r =>
      if Ascii.eqb c "0"%char then Some "0"
      else if is_nonzero_digit c then Some (String c (take_digits r))
      else None
  | EmptyString => None
  end.

(** The pattern matched against the whole text, as [fullmatch] would. *)
Definition idx_reg_fullmatch (s : string) : bool :=
  match _JSNP_GET_ARRAY_IDX_REG_match s with
  | Some m => String.eqb m s
  | None => false
  end.

(** Whitespace skipped by [int()] around a literal. *)
Definition is_space (c : ascii) : bool :=
  let n := nat_of_ascii c in
  (n =? 32)%nat || ((9 <=? n)%nat && (n <=? 13)%nat).

Fixpoint lstrip (s : string) : string :=
  match s with
  | String c r => if is_space c then lstrip r else s
  | EmptyString => EmptyString
  end.

Fixpoint all_space (s : string) : bool :=
  match s with
  | String c r => is_space c && all_space r
  | EmptyString => true
  end.

(** Digits of a decimal literal after its first digit: digits, single
    underscores between digits, then optional trailing whitespace.
    [acc] is the value read so far. *)
Fixpoint int_digits (acc : Z) (s : string) : option Z :=
  match s with
  | EmptyString => Some acc
  | String c r =>
      if is_digit c then int_digits (10 * acc + digit_value c) r
      else if Ascii.eqb c "_"%char then
        match r with
        | String d r' =>
            if is_digit d then int_digits (10 * acc + digit_value d) r'
            else None
        | EmptyString => None
        end
      else if all_space s then Some acc
      else None
  end.

Definition int_unsigned (s : string) : option Z :=
  match s with
  | String c r => if is_digit c then int_digits (digit_value c) r else None
  | EmptyString => None
  end.

(** [int(s)] for a text [s] in base 10 (CPython 3): surrounding whitespace,
    an optional sign, decimal digits with single underscores between them.
    Anything else is a [ValueError]. *)
Definition py_int (s : string) : result Z :=
  let t := lstrip s in
  let parsed :=
    match t with
    | String c r =>
        if Ascii.eqb c "-"%char then option_map Z.opp (int_unsigned r)
        else if Ascii.eqb c "+"%char then int_unsigned r
        else int_unsigned t
    | EmptyString => None
    end in
  match parsed with
  | Some n => Ret n
  | None =>
      Raise (ValueError ("invalid literal for int() with base 10: " ++ py_repr s))
  end.

(** ** Path expression parser *)

(** [jsn_s.replace('~1', '/').replace('~0', '~')] *)
Definition _jsnp_unescape (jsn_s : string) : string :=
  str_replace2 "~"%char "0"%char "~" (str_replace2 "~"%char "1"%char "/" jsn_s).

(** The [for sep in seps] loop of [_split_path], entered with a non-empty
    [path]; falling off the loop returns [[path]]. *)
Fixpoint _split_path_loop (path : string) (seps : list ascii) : list string :=
  match seps with
  | sep :: seps' =>
      if str_contains sep path then
        if String.eqb path (String sep EmptyString) then [EmptyString]
        else filter str_truth (str_split sep path)
      else _split_path_loop path seps'
  | [] => [path]
  end.

Definition _split_path (path : string) (seps : list ascii) : list string :=
  if negb (str_truth path) then [] else _split_path_loop path seps.

(** ** Item access *)

(** The two kinds of subscript [get] uses: a path token, or the integer a
    token was converted to. *)
Inductive pykey : Type :=
| KStr (s : string)
| KInt (i : Z).

Fixpoint dict_lookup (k : string) (items : list (string * pyval)) : option pyval :=
  match items with
  | [] => None
  | (k', v) :: r => if String.eqb k' k then Some v else dict_lookup k r
  end.

(** [sys.maxsize], the largest index-sized integer ([Py_ssize_t] of a
    64-bit build). *)
Definition PY_SSIZE_T_MAX : Z := 9223372036854775807.

(** The integer fits an index-sized integer. *)
Definition fits_index (i : Z) : bool :=
  ((- PY_SSIZE_T_MAX - 1 <=? i) && (i <=? PY_SSIZE_T_MAX))%Z.

(** Subscripting a list or tuple: integers index it (negative ones from the
    end), any other subscript is a [TypeError].  An integer is first
    converted to an index-sized integer, which is an [IndexError] when it
    does not fit. *)
Definition seq_getitem (kind : string) (xs : list pyval) (key : pykey)
  : result pyval :=
  match key with
  | KInt i =>
      if negb (fits_index i)
      then Raise (IndexError "cannot fit 'int' into an index-sized integer")
      else
      let n := Z.of_nat (List.length xs) in
      let j := if (i <? 0)%Z then (i + n)%Z else i in
      if ((j <? 0) || (n <=? j))%Z
      then Raise (IndexError (kind ++ " index out of range"))
      else match nth_error xs (Z.to_nat j) with
           | Some v => Ret v
           | None => Raise (IndexError (kind ++ " index out of range"))
           end
  | KStr _ =>
      Raise (TypeError (kind ++ " indices must be integers or slices, not str"))
  end.

Definition str_getitem (s : string) (key : pykey) : result pyval :=
  match key with
  | KInt i =>
      if negb (fits_index i)
      then Raise (IndexError "cannot fit 'int' into an index-sized integer")
      else
      let n := Z.of_nat (String.length s) in
      let j := if (i <? 0)%Z then (i + n)%Z else i in
      if ((j <? 0) || (n <=? j))%Z
      then Raise (IndexError "string index out of range")
      else match String.get (Z.to_nat j) s with
           | Some c => Ret (PStr (String c EmptyString))
           | None => Raise (IndexError "string index out of range")
           end
  | KStr _ => Raise (TypeError "string indices must be integers")
  end.

Definition key_repr (key : pykey) : string :=
  match key with
  | KStr s => py_repr s
  | KInt i => DecimalString.NilZero.string_of_int (Z.to_int i)
  end.

(** [operator.getitem(obj, key)], that is [obj[key]].  Mapping keys are
    text, so an integer is never among them. *)
Definition getitem (obj : pyval) (key : pykey) : result pyval :=
  match obj with
  | PDict _ items =>
      match key with
      | KStr k =>
          match dict_lookup k items with
          | Some v => Ret v
          | None => Raise (KeyError (key_repr key))
          end
      | KInt _ => Raise (KeyError (key_repr key))
      end
  | PList xs => seq_getitem "list" xs key
  | PTuple xs => seq_getitem "tuple" xs key
  | PNamedTuple _ fields => seq_getitem "tuple" (map snd fields) key
  | PStr s => str_getitem s key
  | PNone => Raise (TypeError "'NoneType' object is not subscriptable")
  | PBool _ => Raise (TypeError "'bool' object is not subscriptable")
  | PInt _ => Raise (TypeError "'int' object is not subscriptable")
  | PGenerator => Raise (TypeError "'generator' object is not subscriptable")
  end.

(** [functools.reduce(operator.getitem, keys, acc)] *)
Fixpoint reduce_getitem (keys : list string) (acc : pyval) : result pyval :=
  match keys with
  | [] => Ret acc
  | k :: r => v <- getitem acc (KStr k) ;; reduce_getitem r v
  end.

(** ** Path accessor *)

(** [except (TypeError, KeyError, IndexError) as exc: return (None, str(exc))];
    any other exception propagates. *)
Definition except_lookup_errors (body : result (pyval * string))
  : result (pyval * string) :=
  match body with
  | Ret r => Ret r
  | Raise (TypeError _ as exc)
  | Raise (KeyError _ as exc)
  | Raise (IndexError _ as exc) => Ret (PNone, str_exc exc)
  | Raise exc => Raise exc
  end.

Definition is_some {A : Type} (o : option A) : bool :=
  match o with Some _ => true | None => false end.

(** The body of [get] once the path is tokenised; [items] is not empty in
    the guarded part. *)
Definition get_items (dic : pyval) (items : list string)
  : result (pyval * string) :=
  match items with
  | [] => Ret (dic, "")
  | _ =>
      except_lookup_errors
        (match items with
         | [item] => v <- getitem dic (KStr item) ;; Ret (v, "")
         | _ =>
             prnt <- reduce_getitem (removelast items) dic ;;
             let last_item := last items "" in
             let arr := is_list_like prnt
                        && is_some (_JSNP_GET_ARRAY_IDX_REG_match last_item) in
             if arr
             then i <- py_int last_item ;;
                  v <- getitem prnt (KInt i) ;; Ret (v, "")
             else v <- getitem prnt (KStr last_item) ;; Ret (v, "")
         end)
  end.

(** [get(dic, path)] with the default separators and index pattern. *)
Definition get (dic : pyval) (path : string) : result (pyval * string) :=
  get_items dic (map _jsnp_unescape (_split_path path PATH_SEPS)).

(** ** Building mappings *)

(** [d[k] = v]: an existing key keeps its position, a new key goes last. *)
Fixpoint dict_set (k : string) (v : pyval) (items : list (string * pyval))
  : list (string * pyval) :=
  match items with
  | [] => [(k, v)]
  | (k', v') :: r =>
      if String.eqb k' k then (k', v) :: r else (k', v') :: dict_set k v r
  end.

(** A mapping class called on an iterable of key/value pairs. *)
Definition dict_of_items (pairs : list (string * pyval)) : list (string * pyval) :=
  fold_left (fun acc kv => dict_set (fst kv) (snd kv) acc) pairs [].

(** [merge in MERGE_STRATEGIES] *)
Definition is_merge_strategy (merge : string) : bool :=
  existsb (String.eqb merge) MERGE_STRATEGIES.

(** ** Tree builder *)

(** [v is None] *)
Definition is_None (v : pyval) : bool :=
  match v with PNone => true | _ => false end.

(** The body of [_make_from_namedtuple] for a record of class [name] with
    the given [fields]; [make_] stands for [make(..., **opts)].  The
    function binds [merge] and [_ntpl_cls_key] as parameters of its own, so
    [opts] holds what is left of the caller's options, that is [ordered]. *)
Definition _make_from_namedtuple_with (make_ : pyval -> result pyval)
  (name : string) (fields : list (string * pyval))
  (merge _ntpl_cls_key : string) : result pyval :=
  let ocls := get_mdict_class merge true in
  pairs <- mapM (fun kv => v <- make_ (snd kv) ;; Ret (fst kv, v)) fields ;;
  let mdict := dict_of_items pairs in
  Ret (PDict ocls (dict_set _ntpl_cls_key (PStr name) mdict)).

(** [make(obj, ordered, merge, _ntpl_cls_key)].  The mapping and sequence
    branches pass all the options on; the record branch goes through
    [_make_from_namedtuple], whose nested calls [make(v, **opts)] are given
    [ordered] only and so run with the default policy [MS_DICTS] and the
    default marker key. *)
Fixpoint make (obj : pyval) (ordered : bool) (merge _ntpl_cls_key : string)
  {struct obj} : result pyval :=
  if negb (is_merge_strategy merge)
  then Raise (ValueError ("Wrong merge strategy: " ++ py_repr merge))
  else
    let cls := get_mdict_class merge ordered in
    match obj with
    | PNone => Ret (PDict cls [])
    | PDict _ items =>
        pairs <- mapM (fun kv =>
                         v <- (if is_None (snd kv) then Ret PNone
                               else make (snd kv) ordered merge _ntpl_cls_key) ;;
                         Ret (fst kv, v)) items ;;
        Ret (PDict cls (dict_of_items pairs))
    | PNamedTuple name fields =>
        _make_from_namedtuple_with
          (fun v => make v ordered MS_DICTS NAMEDTUPLE_CLS_KEY)
          name fields merge _ntpl_cls_key
    | PList xs =>
        ys <- mapM (fun v => make v ordered merge _ntpl_cls_key) xs ;;
        Ret (PList ys)
    | PTuple xs =>
        ys <- mapM (fun v => make v ordered merge _ntpl_cls_key) xs ;;
        Ret (PTuple ys)
    | PGenerator => Raise (TypeError "cannot create 'generator' instances")
    | PBool _ | PInt _ | PStr _ => Ret obj
    end.

Definition _make_from_namedtuple (name : string) (fields : list (string * pyval))
  (ordered : bool) (merge _ntpl_cls_key : string) : result pyval :=
  _make_from_namedtuple_with
    (fun v => make v ordered MS_DICTS NAMEDTUPLE_CLS_KEY)
    name fields merge _ntpl_cls_key.

(** ** Record classes created on the fly *)

Definition is_alpha (c : ascii) : bool :=
  let n := nat_of_ascii c in
  ((65 <=? n)%nat && (n <=? 90)%nat) || ((97 <=? n)%nat && (n <=? 122)%nat).

Definition is_ident_start (c : ascii) : bool :=
  is_alpha c || Ascii.eqb c "_"%char.

Definition is_ident_char (c : ascii) : bool :=
  is_ident_start c || is_digit c.

Fixpoint str_forallb (p : ascii -> bool) (s : string) : bool :=
  match s with
  | EmptyString => true
  | String c r => p c && str_forallb p r
  end.

(** [name.isidentifier()] *)
Definition isidentifier (name : string) : bool :=
  match name with
  | EmptyString => false
  | String c r => is_ident_start c && str_forallb is_ident_char r
  end.

(** [keyword.kwlist] of Python 3. *)
Definition kwlist : list string :=
  ["False"; "None"; "True"; "and"; "as"; "assert"; "async"; "await";
   "break"; "class"; "continue"; "def"; "del"; "elif"; "else"; "except";
   "finally"; "for"; "from"; "global"; "if"; "import"; "in"; "is";
   "lambda"; "nonlocal"; "not"; "or"; "pass"; "raise"; "return"; "try";
   "while"; "with"; "yield"].

Definition iskeyword (name : string) : bool :=
  existsb (String.eqb name) kwlist.

Definition starts_with_underscore (name : string) : bool :=
  match name with
  | String c _ => Ascii.eqb c "_"%char
  | EmptyString => false
  end.

(** First loop of [collections.namedtuple]: every name is an identifier and
    not a keyword. *)
Fixpoint check_names (names : list string) : result unit :=
  match names with
  | [] => Ret tt
  | name :: r =>
      if negb (isidentifier name) then
        Raise (ValueError ("Type names and field names must be valid identifiers: "
                           ++ py_repr name))
      else if iskeyword name then
        Raise (ValueError ("Type names and field names cannot be a keyword: "
                           ++ py_repr name))
      else check_names r
  end.

(** Second loop: no field starts with an underscore, none is repeated. *)
Fixpoint check_fields (seen : list string) (names : list string) : result unit :=
  match names with
  | [] => Ret tt
  | name :: r =>
      if starts_with_underscore name then
        Raise (ValueError ("Field names cannot start with an underscore: "
                           ++ py_repr name))
      else if existsb (String.eqb name) seen then
        Raise (ValueError ("Encountered duplicate field name: " ++ py_repr name))
      else check_fields (name :: seen) r
  end.

(** [collections.namedtuple(typename, field_names)] for a list of field
    names; the class it creates is represented by its name.  The type name
    goes through [str()], and [str()] of a value that is not text is never an
    acceptable name (it is not an identifier, or is one of the keywords
    None, True, False). *)
Definition namedtuple (typename : pyval) (field_names : list string)
  : result string :=
  match typename with
  | PStr name =>
      _ <- check_names (name :: field_names) ;;
      _ <- check_fields [] field_names ;;
      Ret name
  | _ => Raise (ValueError "Type names and field names must be valid identifiers")
  end.

(** ** Converter *)

(** A comprehension with a filter: the elements that pass [keep] are mapped
    through [f], left to right. *)
Definition mapM_if {A B : Type} (keep : A -> bool) (f : A -> result B)
  : list A -> result (list B) :=
  fix go (l : list A) : result (list B) :=
    match l with
    | [] => Ret []
    | a :: r => if keep a then b <- f a ;; bs <- go r ;; Ret (b :: bs) else go r
    end.

(** [convert_to(obj, ordered, to_namedtuple, _ntpl_cls_key)].  In the record
    branch [_keys] and [_vals] are read off the mapping's items: [obj[k]] is
    the value the item of [k] holds.  A named tuple that reaches the
    Sequence branch has its class called on the generator alone, which fits
    the class only when it has exactly one field. *)
Fixpoint convert_to (obj : pyval) (ordered to_namedtuple : bool)
  (_ntpl_cls_key : string) {struct obj} : result pyval :=
  let cls := if ordered then DictOrdered else DictPlain in
  match obj with
  | PDict _ items =>
      if negb to_namedtuple then
        pairs <- mapM (fun kv =>
                         v <- convert_to (snd kv) ordered to_namedtuple
                                _ntpl_cls_key ;;
                         Ret (fst kv, v)) items ;;
        Ret (PDict cls (dict_of_items pairs))
      else
        let _name := match dict_lookup _ntpl_cls_key items with
                     | Some v => v
                     | None => PStr "NamedTuple"
                     end in
        fields <- mapM_if
                    (fun kv => negb (String.eqb (fst kv) _ntpl_cls_key))
                    (fun kv =>
                       v <- convert_to (snd kv) ordered to_namedtuple
                              _ntpl_cls_key ;;
                       Ret (fst kv, v)) items ;;
        let _keys := map fst fields in
        let _vals := map snd fields in
        ntpl <- namedtuple _name _keys ;;
        Ret (PNamedTuple ntpl (combine _keys _vals))
  | PList xs =>
      ys <- mapM (fun v => convert_to v ordered to_namedtuple _ntpl_cls_key) xs ;;
      Ret (PList ys)
  | PTuple xs =>
      ys <- mapM (fun v => convert_to v ordered to_namedtuple _ntpl_cls_key) xs ;;
      Ret (PTuple ys)
  | PNamedTuple name fields =>
      match fields with
      | [(f, _)] => Ret (PNamedTuple name [(f, PGenerator)])
      | _ => Raise (TypeError "__new__() got a wrong number of positional arguments")
      end
  | PGenerator => Raise (TypeError "cannot create 'generator' instances")
  | PNone | PBool _ | PInt _ | PStr _ => Ret obj
  end.

(** ** Reference notions used by the statements *)

(** [sep.join(pieces)] *)
Fixpoint str_join (sep : ascii) (pieces : list string) : string :=
  match pieces with
  | [] => EmptyString
  | [piece] => piece
  | piece :: rest => piece ++ String sep (str_join sep rest)
  end.

(** The separator that governs a path: the first of [PATH_SEPS], in that
    order, that occurs anywhere in the path. *)
Definition chosen_sep (path : string) : option ascii :=
  find (fun sep => str_contains sep path) PATH_SEPS.

(** The decoding the pointer syntax asks for, in one scan: each "~1"
    becomes "/" and each "~0" becomes "~", independently of one another. *)
Fixpoint unescape_one_pass (s : string) : string :=
  match s with
  | String c (String d rest as tl) =>
      if Ascii.eqb c "~" && Ascii.eqb d "1"
      then String "/" (unescape_one_pass rest)
      else if Ascii.eqb c "~" && Ascii.eqb d "0"
      then String "~" (unescape_one_pass rest)
      else String c (unescape_one_pass tl)
  | _ => s
  end.

Definition head_char (s : string) : option ascii :=
  match s with String c _ => Some c | EmptyString => None end.

(** The tree of the doctests of [get]:
    [{'a': {'b': {'c': 0, 'd': [1, 2]}}, '': 3}]. *)
Definition doc_tree : pyval :=
  PDict DictPlain
    [("a", PDict DictPlain
             [("b", PDict DictPlain
                      [("c", PInt 0); ("d", PList [PInt 1; PInt 2])])]);
     ("", PInt 3)].

(** The exceptions named by the [except] clause of [get]. *)
Definition is_lookup_error (e : exn) : bool :=
  match e with
  | TypeError _ | KeyError _ | IndexError _ => true
  | ValueError _ => false
  end.

(** Scalars: booleans, numbers and text. *)
Definition is_scalar (v : pyval) : bool :=
  match v with
  | PBool _ | PInt _ | PStr _ => true
  | _ => false
  end.

(** A name [collections.namedtuple] lets through its first loop: an
    identifier that is no keyword. *)
Definition acceptable_name (name : string) : bool :=
  isidentifier name && negb (iskeyword name).

(** A record class that [collections.namedtuple] accepts: every record
    that exists has one. *)
Definition valid_record (name : string) (field_names : list string) : bool :=
  match namedtuple (PStr name) field_names with
  | Ret _ => true
  | Raise _ => false
  end.

(** Data that contain neither Null nor a mapping: scalars, sequences of
    such data, and records of such data whose fields avoid the marker
    key. *)
Fixpoint marker_free_data (key : string) (v : pyval) : bool :=
  match v with
  | PBool _ | PInt _ | PStr _ => true
  | PList xs | PTuple xs => forallb (marker_free_data key) xs
  | PNamedTuple name fields =>
      valid_record name (map fst fields)
      && negb (existsb (String.eqb key) (map fst fields))
      && forallb (fun kv => marker_free_data key (snd kv)) fields
  | PNone | PDict _ _ | PGenerator => false
  end.

(** The field names of a mapping turned into a record: its keys but the
    marker key, in mapping order. *)
Definition record_items (key : string) (items : list (string * pyval))
  : list (string * pyval) :=
  filter (fun kv => negb (String.eqb (fst kv) key)) items.

(** The type name of a mapping turned into a record. *)
Definition record_type_name (key : string) (items : list (string * pyval))
  : pyval :=
  match dict_lookup key items with
  | Some v => v
  | None => PStr "NamedTuple"
  end.

(** ** Nested mappings and the setter *)

(** [mk_nested_dic(path, val, seps)]: the loop over the reversed tokens
    wraps [val] in one-key [dict]s, innermost key last; [ret] stays [None]
    when the path has no token.  [ret.copy()] is a copy of a value. *)
Definition mk_nested_dic (path : string) (val : pyval) (seps : list ascii)
  : pyval :=
  fold_left
    (fun ret key => PDict DictPlain [(key, if is_None ret then val else ret)])
    (rev (_split_path path seps)) PNone.

(** [d.update(other)] of the built-in mappings: every item of [other] is
    assigned in turn. *)
Definition dict_update (items other : list (string * pyval))
  : list (string * pyval) :=
  fold_left (fun acc kv => dict_set (fst kv) (snd kv) acc) other items.

(** [set_(dic, path, val, seps)] for a built-in mapping [dic] ([dict] or
    [OrderedDict]) with the given items.  The mapping is changed in place:
    the result is its items after the call.  [update] on [None], which
    [mk_nested_dic] returns for a path without token, is a [TypeError]. *)
Definition set_ (items : list (string * pyval)) (path : string) (val : pyval)
  (seps : list ascii) : result (list (string * pyval)) :=
  match mk_nested_dic path val seps with
  | PDict _ other => Ret (dict_update items other)
  | _ => Raise (TypeError "'NoneType' object is not iterable")
  end.

(** ** Further reference notions *)

(** The value [keys] lead to inside a single-branch nesting of [val]. *)
Fixpoint nest (keys : list string) (val : pyval) : pyval :=
  match keys with
  | [] => val
  | key :: rest => PDict DictPlain [(key, nest rest val)]
  end.

(** The pointer escaping of RFC 6901, which the docstring of
    [_jsnp_unescape] refers to: "~" is written "~0" and "/" is written
    "~1". *)
Fixpoint jsnp_escape (s : string) : string :=
  match s with
  | EmptyString => EmptyString
  | String c r =>
      if Ascii.eqb c "~" then String "~" (String "0" (jsnp_escape r))
      else if Ascii.eqb c "/" then String "~" (String "1" (jsnp_escape r))
      else String c (jsnp_escape r)
  end.

(** Every character of the text is [c]. *)
Fixpoint str_all_eq (c : ascii) (s : string) : bool :=
  match s with
  | EmptyString => true
  | String d r => Ascii.eqb d c && str_all_eq c r
  end.

(** The keys are pairwise distinct. *)
Fixpoint keys_distinct (keys : list string) : bool :=
  match keys with
  | [] => true
  | k :: r => negb (existsb (String.eqb k) r) && keys_distinct r
  end.

(** A lifted tree for the policies [policy_ok] accepts and the flag
    [ordered]: every mapping in it is a Mergeable Mapping of such a policy
    with distinct keys, ordered when [ordered] is set, and holds Null or
    lifted trees; the sequences hold lifted trees; there is no record and
    no bare Null. *)
Fixpoint lifted_by (policy_ok : string -> bool) (ordered : bool) (t : pyval)
  : bool :=
  match t with
  | PBool _ | PInt _ | PStr _ => true
  | PList xs | PTuple xs => forallb (lifted_by policy_ok ordered) xs
  | PDict (MDict m o) items =>
      policy_ok m && (o || negb ordered)
      && keys_distinct (map fst items)
      && forallb (fun kv => is_None (snd kv)
                            || lifted_by policy_ok ordered (snd kv))
                 items
  | PDict _ _ | PNone | PNamedTuple _ _ | PGenerator => false
  end.

(** The policy is [merge], or the default policy of [make]. *)
Definition requested_or_default (merge : string) (m : string) : bool :=
  String.eqb merge m || String.eqb MS_DICTS m.

(** Data that hold no record. *)
Fixpoint record_free (v : pyval) : bool :=
  match v with
  | PNamedTuple _ _ => false
  | PNone | PBool _ | PInt _ | PStr _ | PGenerator => true
  | PList xs | PTuple xs => forallb record_free xs
  | PDict _ items => forallb (fun kv => record_free (snd kv)) items
  end.

(** The built-in mapping class [convert_to] uses for the flag [ordered]. *)
Definition builtin_class (ordered : bool) : dict_class :=
  if ordered then DictOrdered else DictPlain.

Definition is_builtin_class (ordered : bool) (cls : dict_class) : bool :=
  match cls, ordered with
  | DictOrdered, true | DictPlain, false => true
  | _, _ => false
  end.

(** Plain data of the flag [ordered]: scalars, sequences of plain data,
    and built-in mappings of the class of the flag with distinct keys that
    hold Null or plain data. *)
Fixpoint plain_data (ordered : bool) (v : pyval) : bool :=
  match v with
  | PBool _ | PInt _ | PStr _ => true
  | PList xs | PTuple xs => forallb (plain_data ordered) xs
  | PDict cls items =>
      is_builtin_class ordered cls
      && keys_distinct (map fst items)
      && forallb (fun kv => is_None (snd kv) || plain_data ordered (snd kv))
                 items
  | PNone | PNamedTuple _ _ | PGenerator => false
  end.

(** Every mapping inside the value is a built-in mapping of the class of
    the flag [ordered]. *)
Fixpoint builtin_only (ordered : bool) (v : pyval) : bool :=
  match v with
  | PNone | PBool _ | PInt _ | PStr _ | PGenerator => true
  | PList xs | PTuple xs => forallb (builtin_only ordered) xs
  | PDict cls items =>
      is_builtin_class ordered cls
      && forallb (fun kv => builtin_only ordered (snd kv)) items
  | PNamedTuple _ fields =>
      forallb (fun kv => builtin_only ordered (snd kv)) fields
  end.

(** Data that hold no generator object. *)
Fixpoint generator_free (v : pyval) : bool :=
  match v with
  | PGenerator => false
  | PNone | PBool _ | PInt _ | PStr _ => true
  | PList xs | PTuple xs => forallb generator_free xs
  | PDict _ items | PNamedTuple _ items =>
      forallb (fun kv => generator_free (snd kv)) items
  end.

(** * Properties *)

(** ** Text primitives *)

Lemma str_truth_true : forall s, str_truth s = true <-> s <> "".
Proof.
  destruct s; simpl; split; intro H; try reflexivity; try discriminate.
  congruence.
Qed.

Lemma str_split_not_nil : forall sep s, str_split sep s <> [].
Proof.
  intros sep s. destruct s as [|c r]; simpl.
  - discriminate.
  - destruct (Ascii.eqb c sep); [discriminate|].
    destruct (str_split sep r); discriminate.
Qed.

(** The pieces of a split never contain the separator. *)
Lemma str_split_pieces_sep_free : forall sep s,
  Forall (fun piece => str_contains sep piece = false) (str_split sep s).
Proof.
  intros sep s. induction s as [|c r IH]; simpl.
  - constructor; [reflexivity|constructor].
  - destruct (Ascii.eqb c sep) eqn:E.
    + constructor; [reflexivity|exact IH].
    + destruct (str_split sep r) as [|piece pieces].
      * constructor; [simpl; rewrite E; reflexivity|constructor].
      * inversion IH; subst. constructor; [|assumption].
        simpl. rewrite E. assumption.
Qed.

(** Splitting loses nothing: joining the pieces gives the text back. *)
Lemma str_join_split : forall sep s, str_join sep (str_split sep s) = s.
Proof.
  intros sep s. induction s as [|c r IH]; simpl.
  - reflexivity.
  - destruct (Ascii.eqb c sep) eqn:E.
    + apply Ascii.eqb_eq in E. subst c.
      pose proof (str_split_not_nil sep r) as Hne.
      destruct (str_split sep r) as [|piece pieces]; [congruence|].
      simpl. f_equal. exact IH.
    + destruct (str_split sep r) as [|piece pieces].
      * simpl in IH. subst r. reflexivity.
      * destruct pieces as [|p2 ps]; simpl in *; f_equal; exact IH.
Qed.

Lemma split_kept_pieces : forall sep s,
  Forall (fun piece => piece <> "" /\ str_contains sep piece = false)
         (filter str_truth (str_split sep s)).
Proof.
  intros sep s. apply Forall_forall. intros piece Hin.
  apply filter_In in Hin. destruct Hin as [Hin Ht].
  split.
  - apply str_truth_true. exact Ht.
  - pose proof (str_split_pieces_sep_free sep s) as Hall.
    rewrite Forall_forall in Hall. apply Hall. exact Hin.
Qed.

(** ** Path splitting *)

Lemma split_path_unfold : forall path,
  _split_path path PATH_SEPS =
  if negb (str_truth path) then []
  else match chosen_sep path with
       | Some sep =>
           if String.eqb path (String sep EmptyString) then [EmptyString]
           else filter str_truth (str_split sep path)
       | None => [path]
       end.
Proof.
  intro path. unfold _split_path, chosen_sep, PATH_SEPS. simpl.
  destruct (negb (str_truth path)); [reflexivity|].
  destruct (str_contains "/" path); [reflexivity|].
  destruct (str_contains "." path); reflexivity.
Qed.

(** C7.  Splitting a path: the empty path has no segment; a path that is
    one separator character is the single empty segment; otherwise the
    first of '/' and '.' (in that order) that occurs anywhere in the path
    splits all of it and the empty pieces are dropped, so that every
    segment is non-empty and free of that separator; a path without a
    separator is its own single segment. *)
Theorem split_path_spec :
  _split_path "" PATH_SEPS = []
  /\ (forall sep, In sep PATH_SEPS ->
        _split_path (String sep "") PATH_SEPS = [""])
  /\ (forall path sep,
        chosen_sep path = Some sep -> path <> String sep "" ->
        _split_path path PATH_SEPS = filter str_truth (str_split sep path)
        /\ Forall (fun seg => seg <> "" /\ str_contains sep seg = false)
                  (_split_path path PATH_SEPS))
  /\ (forall path, path <> "" -> chosen_sep path = None ->
        _split_path path PATH_SEPS = [path])
  /\ _split_path "a.b.c" PATH_SEPS = ["a"; "b"; "c"]
  /\ _split_path "/a/b/c" PATH_SEPS = ["a"; "b"; "c"]
  /\ _split_path "/a/b/" PATH_SEPS = ["a"; "b"]
  /\ _split_path "a.b." PATH_SEPS = ["a"; "b"]
  /\ _split_path "a/b" PATH_SEPS = ["a"; "b"]
  /\ _split_path "abc" PATH_SEPS = ["abc"].
Proof.
  split; [reflexivity|].
  split.
  { intros sep Hin. simpl in Hin.
    destruct Hin as [<-|[<-|[]]]; reflexivity. }
  split.
  { intros path sep Hsep Hne.
    assert (Hpath : str_truth path = true).
    { destruct path; [|reflexivity].
      unfold chosen_sep in Hsep. simpl in Hsep. discriminate. }
    assert (Heq : _split_path path PATH_SEPS
                  = filter str_truth (str_split sep path)).
    { rewrite split_path_unfold, Hpath, Hsep. simpl.
      destruct (String.eqb path (String sep "")) eqn:E; [|reflexivity].
      apply String.eqb_eq in E. contradiction. }
    split; [exact Heq|].
    rewrite Heq. apply split_kept_pieces. }
  split.
  { intros path Hne Hnone.
    rewrite split_path_unfold, Hnone.
    destruct path; [contradiction|reflexivity]. }
  repeat split; reflexivity.
Qed.

Lemma split_path_spec_witness :
  chosen_sep "/a.x/b/" = Some "/"%char
  /\ _split_path "/a.x/b/" PATH_SEPS = ["a.x"; "b"].
Proof.
  split; [reflexivity|].
  destruct split_path_spec as (_ & _ & H & _).
  destruct (H "/a.x/b/" "/"%char) as [Heq _].
  - reflexivity.
  - discriminate.
  - rewrite Heq. reflexivity.
Defined.

(** ** Unescaping *)

Lemma replace2_skip : forall a b new c t,
  Ascii.eqb c a = false ->
  str_replace2 a b new (String c t) = String c (str_replace2 a b new t).
Proof.
  intros a b new c t Hc. destruct t as [|d rest]; simpl.
  - reflexivity.
  - rewrite Hc. reflexivity.
Qed.

Lemma replace2_keep_head : forall a b new c t,
  head_char t <> Some b ->
  str_replace2 a b new (String c t) = String c (str_replace2 a b new t).
Proof.
  intros a b new c t Hh. destruct t as [|d rest]; [reflexivity|].
  simpl in Hh.
  assert (Hd : Ascii.eqb d b = false).
  { apply Ascii.eqb_neq. congruence. }
  cbn [str_replace2]. rewrite Hd, andb_false_r. reflexivity.
Qed.

(** After the first pass a text starts with its own first character or
    with the "/" that replaced an escape. *)
Lemma replace_tilde1_head : forall d rest,
  head_char (str_replace2 "~" "1" "/" (String d rest)) = Some d
  \/ head_char (str_replace2 "~" "1" "/" (String d rest)) = Some "/"%char.
Proof.
  intros d rest. destruct rest as [|e rest']; [left; reflexivity|].
  cbn [str_replace2].
  destruct (Ascii.eqb d "~" && Ascii.eqb e "1"); [right|left]; reflexivity.
Qed.

Lemma unescape_is_one_pass_upto : forall n s,
  (String.length s <= n)%nat -> _jsnp_unescape s = unescape_one_pass s.
Proof.
  unfold _jsnp_unescape.
  induction n as [|n IH]; intros s Hlen.
  - destruct s; [reflexivity|simpl in Hlen; lia].
  - destruct s as [|c [|d rest]]; [reflexivity|reflexivity|].
    simpl in Hlen.
    cbn [unescape_one_pass].
    destruct (Ascii.eqb c "~") eqn:Ec.
    + apply Ascii.eqb_eq in Ec. subst c.
      destruct (Ascii.eqb d "1") eqn:E1.
      * apply Ascii.eqb_eq in E1. subst d.
        cbn [str_replace2 Ascii.eqb Bool.eqb andb].
        change ("/" ++ str_replace2 "~" "1" "/" rest)%string
          with (String "/" (str_replace2 "~" "1" "/" rest)).
        rewrite replace2_skip by reflexivity.
        f_equal. apply IH. lia.
      * destruct (Ascii.eqb d "0") eqn:E0.
        -- apply Ascii.eqb_eq in E0. subst d.
           cbn [andb].
           change (str_replace2 "~" "1" "/" (String "~" (String "0" rest)))
             with (String "~" (str_replace2 "~" "1" "/" (String "0" rest))).
           rewrite (replace2_skip "~" "1" "/" "0") by reflexivity.
           cbn [str_replace2 Ascii.eqb Bool.eqb andb].
           change ("~" ++ str_replace2 "~" "0" "~" (str_replace2 "~" "1" "/" rest))%string
             with (String "~" (str_replace2 "~" "0" "~" (str_replace2 "~" "1" "/" rest))).
           f_equal. apply IH. lia.
        -- cbn [andb].
           assert (Hstep : str_replace2 "~" "1" "/" (String "~" (String d rest))
                           = String "~" (str_replace2 "~" "1" "/" (String d rest))).
           { cbn [str_replace2]. rewrite E1. reflexivity. }
           rewrite Hstep.
           rewrite replace2_keep_head.
           ++ f_equal. apply IH. simpl. lia.
           ++ destruct (replace_tilde1_head d rest) as [H|H]; rewrite H.
              ** intro Heq. inversion Heq. subst d. discriminate.
              ** discriminate.
    + cbn [andb].
      rewrite (replace2_skip "~" "1" "/" c) by exact Ec.
      rewrite (replace2_skip "~" "0" "~" c) by exact Ec.
      f_equal. apply IH. simpl. lia.
Qed.

(** C8.  Every segment of a path is unescaped before it is used as a key;
    unescaping replaces "~1" by "/" and then "~0" by "~", which decodes
    each of the two escapes independently of the other; the two documented
    examples. *)
Theorem jsnp_unescape_spec :
  (forall s, _jsnp_unescape s
             = str_replace2 "~" "0" "~" (str_replace2 "~" "1" "/" s))
  /\ (forall s, _jsnp_unescape s = unescape_one_pass s)
  /\ (forall dic path,
        get dic path
        = get_items dic (map _jsnp_unescape (_split_path path PATH_SEPS)))
  /\ _jsnp_unescape "a~1b" = "a/b"
  /\ _jsnp_unescape "/a~1b" = "/a/b"
  /\ _jsnp_unescape "~1aaa~1~0bbb" = "/aaa/~bbb"
  /\ _jsnp_unescape "~01" = "~1".
Proof.
  split; [reflexivity|].
  split; [intro s; apply (unescape_is_one_pass_upto (String.length s)); lia|].
  split; [reflexivity|].
  repeat split; reflexivity.
Qed.

(** ** Item access never fails with a [ValueError] *)




Lemma reduce_getitem_app : forall pre post acc,
  reduce_getitem (pre ++ post) acc
  = (v <- reduce_getitem pre acc ;; reduce_getitem post v).
Proof.
  induction pre as [|k r IH]; intros post acc; simpl.
  - reflexivity.
  - destruct (getitem acc (KStr k)); simpl; [apply IH|reflexivity].
Qed.

Lemma except_lookup_errors_caught : forall e,
  is_lookup_error e = true ->
  except_lookup_errors (Raise e) = Ret (PNone, str_exc e).
Proof.
  intros e H. destruct e; try reflexivity. discriminate.
Qed.


(** The guarded part of [get] for a path of two or more tokens. *)
Lemma get_items_multi : forall dic a b r,
  get_items dic (a :: b :: r)
  = except_lookup_errors
      (prnt <- reduce_getitem (removelast (a :: b :: r)) dic ;;
       if is_list_like prnt
          && is_some (_JSNP_GET_ARRAY_IDX_REG_match (last (a :: b :: r) ""))
       then i <- py_int (last (a :: b :: r) "") ;;
            v <- getitem prnt (KInt i) ;; Ret (v, "")
       else v <- getitem prnt (KStr (last (a :: b :: r) "")) ;; Ret (v, "")).
Proof. reflexivity. Qed.

(** ** Where the index pattern and [int()] disagree *)

(** The pattern is only anchored at the start: it accepts every token that
    begins with a decimal digit. *)
Lemma idx_reg_match_iff_leading_digit : forall s,
  is_some (_JSNP_GET_ARRAY_IDX_REG_match s)
  = match s with String c _ => is_digit c | EmptyString => false end.
Proof.
  destruct s as [|c r]; [reflexivity|].
  unfold _JSNP_GET_ARRAY_IDX_REG_match.
  destruct (Ascii.eqb c "0") eqn:E0.
  - apply Ascii.eqb_eq in E0. subst c. reflexivity.
  - assert (H : is_nonzero_digit c = is_digit c).
    { unfold is_nonzero_digit, is_digit.
      apply Ascii.eqb_neq in E0.
      assert (Hn : nat_of_ascii c <> 48%nat).
      { intro Hc. apply E0. rewrite <- (ascii_nat_embedding c), Hc. reflexivity. }
      destruct (Nat.leb_spec 48 (nat_of_ascii c));
        destruct (Nat.leb_spec 49 (nat_of_ascii c)); try reflexivity; lia. }
    rewrite <- H. destruct (is_nonzero_digit c); reflexivity.
Qed.






(** ** The accessor *)


(** C1.  [get] on the doctest tree with the path "/a/b/d/1x": the last token
    begins with a digit, so it is handed to [int()], whose [ValueError] is
    not among the exceptions [get] catches and leaves the call. *)
Theorem get_bad_index_raises :
  get doc_tree "/a/b/d/1x"
  = Raise (ValueError "invalid literal for int() with base 10: '1x'").
Proof. reflexivity. Qed.

(** C2.  On the doctest tree the documented index accesses behave as
    stated, but the token "01", which is not a decimal index without
    leading zero, is converted to the integer 1 and used as an index as
    well. *)
Theorem get_leading_zero_index :
  get doc_tree "/a/b/d/1" = Ret (PInt 2, "")
  /\ get doc_tree "/a/b/d/2" = Ret (PNone, "list index out of range")
  /\ idx_reg_fullmatch "01" = false
  /\ get doc_tree "/a/b/d/01" = Ret (PInt 2, "").
Proof. repeat split; reflexivity. Qed.

(** The documented examples of [get]. *)
Lemma get_doc_examples :
  get doc_tree "/" = Ret (PInt 3, "")
  /\ get doc_tree "/a/b/c" = Ret (PInt 0, "")
  /\ get doc_tree "a.b.d" = Ret (PList [PInt 1; PInt 2], "")
  /\ get doc_tree "a.b.key_not_exist" = Ret (PNone, "'key_not_exist'")
  /\ get doc_tree "/a/b/d/-"
     = Ret (PNone, "list indices must be integers or slices, not str").
Proof. repeat split; reflexivity. Qed.

(** When the conversion to an index takes place: the container reached is
    Sequence-like and the last token begins with a decimal digit. *)
Lemma get_last_token_dispatch : forall dic a b r prnt,
  reduce_getitem (removelast (a :: b :: r)) dic = Ret prnt ->
  let tok := last (a :: b :: r) "" in
  get_items dic (a :: b :: r)
  = except_lookup_errors
      (if is_list_like prnt
          && match tok with String c _ => is_digit c | EmptyString => false end
       then i <- py_int tok ;; v <- getitem prnt (KInt i) ;; Ret (v, "")
       else v <- getitem prnt (KStr tok) ;; Ret (v, "")).
Proof.
  intros dic a b r prnt H tok.
  rewrite get_items_multi, H. simpl bind.
  fold tok. rewrite idx_reg_match_iff_leading_digit. reflexivity.
Qed.

Lemma list_like_rejects_text_key : forall seq tok,
  is_list_like seq = true ->
  exists msg, getitem seq (KStr tok) = Raise (TypeError msg).
Proof.
  intros seq tok H. destruct seq; try discriminate; simpl; eexists; reflexivity.
Qed.

(** C9.  Only the last token of a path is ever converted to an index: when
    a token that is not the last one is reached at a Sequence-like value,
    it is looked up as a text key, which the sequence rejects, and [get]
    returns Null with that message, whatever the token is. *)
Theorem get_inner_index_fails : forall dic path pre tok post seq,
  map _jsnp_unescape (_split_path path PATH_SEPS) = pre ++ tok :: post ->
  post <> [] ->
  reduce_getitem pre dic = Ret seq ->
  is_list_like seq = true ->
  exists msg,
    get dic path = Ret (PNone, msg)
    /\ getitem seq (KStr tok) = Raise (TypeError msg).
Proof.
  intros dic path pre tok post seq Hitems Hpost Hpre Hseq.
  destruct (list_like_rejects_text_key seq tok Hseq) as [msg Hmsg].
  exists msg. split; [|exact Hmsg].
  unfold get. rewrite Hitems.
  assert (Hrl : removelast (pre ++ tok :: post) = pre ++ tok :: removelast post).
  { rewrite removelast_app by discriminate.
    destruct post; [contradiction|reflexivity]. }
  assert (Hred : reduce_getitem (removelast (pre ++ tok :: post)) dic
                 = Raise (TypeError msg)).
  { rewrite Hrl, reduce_getitem_app, Hpre. simpl. rewrite Hmsg. reflexivity. }
  destruct (pre ++ tok :: post) as [|a [|b r]] eqn:El.
  - destruct pre; discriminate.
  - destruct pre as [|p pre']; simpl in El.
    + inversion El. subst. contradiction.
    + inversion El. destruct pre'; discriminate.
  - rewrite get_items_multi, Hred. reflexivity.
Qed.

Lemma get_inner_index_fails_witness :
  exists msg,
    get (PDict DictPlain [("a", PList [PList [PInt 1; PInt 2]; PInt 3])])
        "/a/0/1"
    = Ret (PNone, msg).
Proof.
  destruct (get_inner_index_fails
              (PDict DictPlain [("a", PList [PList [PInt 1; PInt 2]; PInt 3])])
              "/a/0/1" ["a"] "0" ["1"]
              (PList [PList [PInt 1; PInt 2]; PInt 3]))
    as [msg [H _]].
  - reflexivity.
  - discriminate.
  - reflexivity.
  - reflexivity.
  - exists msg. exact H.
Defined.

(** ** Generic facts on comprehensions and mappings *)

Lemma mapM_Forall2 : forall (A B : Type) (f : A -> result B) l bs,
  Forall2 (fun a b => f a = Ret b) l bs -> mapM f l = Ret bs.
Proof.
  intros A B f l bs H. induction H as [|a b l bs Hab _ IH]; simpl.
  - reflexivity.
  - rewrite Hab. simpl. rewrite IH. reflexivity.
Qed.

Lemma mapM_ret_or_raise : forall (A B : Type) (f : A -> result B) e0 l,
  Forall (fun a => (exists b, f a = Ret b) \/ f a = Raise e0) l ->
  (exists bs, mapM f l = Ret bs) \/ mapM f l = Raise e0.
Proof.
  intros A B f e0 l H. induction H as [|a l Ha _ IH]; simpl.
  - left. eexists. reflexivity.
  - destruct Ha as [[b Hb]|Hb]; rewrite Hb; simpl.
    + destruct IH as [[bs Hbs]|Hbs]; rewrite Hbs; simpl.
      * left. eexists. reflexivity.
      * right. reflexivity.
    + right. reflexivity.
Qed.

Lemma mapM_if_filter : forall (A B : Type) (keep : A -> bool)
                              (f : A -> result B) l,
  mapM_if keep f l = mapM f (filter keep l).
Proof.
  intros A B keep f l. induction l as [|a r IH]; simpl.
  - reflexivity.
  - destruct (keep a); simpl; rewrite IH; reflexivity.
Qed.

Lemma existsb_eqb_In : forall (k : string) l,
  existsb (String.eqb k) l = true <-> In k l.
Proof.
  intros k l. rewrite existsb_exists. split.
  - intros [x [Hin Heq]]. apply String.eqb_eq in Heq. subst. exact Hin.
  - intro Hin. exists k. split; [exact Hin|apply String.eqb_refl].
Qed.

Lemma dict_set_fresh : forall k v items,
  ~ In k (map fst items) -> dict_set k v items = items ++ [(k, v)].
Proof.
  intros k v items. induction items as [|[k' v'] r IH]; simpl; intro Hnin.
  - reflexivity.
  - destruct (String.eqb k' k) eqn:E.
    + apply String.eqb_eq in E. subst. exfalso. apply Hnin. left. reflexivity.
    + rewrite IH; [reflexivity|]. intro Hin. apply Hnin. right. exact Hin.
Qed.

Lemma dict_fold_distinct : forall pairs acc,
  NoDup (map fst (acc ++ pairs)) ->
  fold_left (fun acc kv => dict_set (fst kv) (snd kv) acc) pairs acc
  = acc ++ pairs.
Proof.
  induction pairs as [|[k v] r IH]; intros acc Hnd; simpl.
  - rewrite app_nil_r. reflexivity.
  - assert (Hfresh : ~ In k (map fst acc)).
    { rewrite map_app in Hnd. simpl in Hnd.
      apply NoDup_remove_2 in Hnd. intro Hin. apply Hnd.
      apply in_or_app. left. exact Hin. }
    rewrite (dict_set_fresh k v acc Hfresh).
    rewrite IH.
    + rewrite <- app_assoc. reflexivity.
    + rewrite <- app_assoc. exact Hnd.
Qed.

(** Pairs with distinct keys make a mapping with exactly those items, in
    that order. *)
Lemma dict_of_items_distinct : forall pairs,
  NoDup (map fst pairs) -> dict_of_items pairs = pairs.
Proof.
  intros pairs Hnd. unfold dict_of_items.
  rewrite dict_fold_distinct; [reflexivity|exact Hnd].
Qed.

Lemma dict_lookup_app_fresh : forall k v items,
  ~ In k (map fst items) -> dict_lookup k (items ++ [(k, v)]) = Some v.
Proof.
  intros k v items. induction items as [|[k' v'] r IH]; simpl; intro Hnin.
  - rewrite String.eqb_refl. reflexivity.
  - destruct (String.eqb k' k) eqn:E.
    + apply String.eqb_eq in E. subst. exfalso. apply Hnin. left. reflexivity.
    + apply IH. intro Hin. apply Hnin. right. exact Hin.
Qed.

Lemma map_fst_combine : forall (A B : Type) (ks : list A) (vs : list B),
  List.length ks = List.length vs -> map fst (combine ks vs) = ks.
Proof.
  induction ks as [|k ks IH]; intros [|v vs] H; simpl in *;
    try reflexivity; try discriminate.
  f_equal. apply IH. lia.
Qed.

Lemma map_snd_combine : forall (A B : Type) (ks : list A) (vs : list B),
  List.length ks = List.length vs -> map snd (combine ks vs) = vs.
Proof.
  induction ks as [|k ks IH]; intros [|v vs] H; simpl in *;
    try reflexivity; try discriminate.
  f_equal. apply IH. lia.
Qed.

Lemma combine_fst_snd : forall (A B : Type) (l : list (A * B)),
  combine (map fst l) (map snd l) = l.
Proof.
  induction l as [|[a b] r IH]; simpl; [reflexivity|].
  rewrite IH. reflexivity.
Qed.

(** ** The policy check of [make] *)

Lemma is_merge_strategy_In : forall merge,
  is_merge_strategy merge = true <-> In merge MERGE_STRATEGIES.
Proof. intro merge. apply existsb_eqb_In. Qed.

Lemma make_wrong_strategy : forall obj ordered merge key,
  is_merge_strategy merge = false ->
  make obj ordered merge key
  = Raise (ValueError ("Wrong merge strategy: " ++ py_repr merge)).
Proof.
  intros obj ordered merge key H. destruct obj; simpl; rewrite H; reflexivity.
Qed.

Lemma MS_DICTS_is_strategy : is_merge_strategy MS_DICTS = true.
Proof. reflexivity. Qed.

Lemma make_returns_or_generator_all : forall ordered obj merge key,
  is_merge_strategy merge = true ->
  (exists t, make obj ordered merge key = Ret t)
  \/ make obj ordered merge key
     = Raise (TypeError "cannot create 'generator' instances").
Proof.
  intros ordered.
  induction obj as [| b | n | s | xs IH | xs IH | cls items IH
                    | name fields IH |] using pyval_nested_ind;
    intros merge key Hm; simpl; rewrite Hm; simpl;
    try (left; eexists; reflexivity); try (right; reflexivity).
  - destruct (mapM_ret_or_raise _ _ (fun v => make v ordered merge key)
                (TypeError "cannot create 'generator' instances") xs)
      as [[ys Hys]|Hys].
    + eapply Forall_impl; [|exact IH]. intros x H. apply H. exact Hm.
    + rewrite Hys. left. eexists. reflexivity.
    + rewrite Hys. right. reflexivity.
  - destruct (mapM_ret_or_raise _ _ (fun v => make v ordered merge key)
                (TypeError "cannot create 'generator' instances") xs)
      as [[ys Hys]|Hys].
    + eapply Forall_impl; [|exact IH]. intros x H. apply H. exact Hm.
    + rewrite Hys. left. eexists. reflexivity.
    + rewrite Hys. right. reflexivity.
  - match goal with
    | |- context [mapM ?f items] =>
        destruct (mapM_ret_or_raise _ _ f
                    (TypeError "cannot create 'generator' instances") items)
          as [[ys Hys]|Hys]
    end.
    + eapply Forall_impl; [|exact IH]. intros [k v] H. simpl in *.
      destruct (is_None v).
      * left. eexists. reflexivity.
      * destruct (H merge key Hm) as [[t Ht]|Ht]; rewrite Ht; simpl;
          [left; eexists; reflexivity|right; reflexivity].
    + rewrite Hys. left. eexists. reflexivity.
    + rewrite Hys. right. reflexivity.
  - unfold _make_from_namedtuple_with.
    match goal with
    | |- context [mapM ?f fields] =>
        destruct (mapM_ret_or_raise _ _ f
                    (TypeError "cannot create 'generator' instances") fields)
          as [[ys Hys]|Hys]
    end.
    + eapply Forall_impl; [|exact IH]. intros [k v] H. simpl in *.
      destruct (H MS_DICTS NAMEDTUPLE_CLS_KEY MS_DICTS_is_strategy)
        as [[t Ht]|Ht]; rewrite Ht; simpl;
        [left; eexists; reflexivity|right; reflexivity].
    + rewrite Hys. left. eexists. reflexivity.
    + rewrite Hys. right. reflexivity.
Qed.

(** With a valid policy [make] returns, unless the data holds a generator
    object, whose type cannot be instantiated. *)
Lemma make_returns_or_generator : forall ordered merge key,
  is_merge_strategy merge = true ->
  forall obj,
    (exists t, make obj ordered merge key = Ret t)
    \/ make obj ordered merge key
       = Raise (TypeError "cannot create 'generator' instances").
Proof.
  intros ordered merge key Hm obj.
  apply make_returns_or_generator_all. exact Hm.
Qed.

(** C4.  A policy outside the four merge strategies makes [make] raise the
    invalid-configuration error whatever the data is, before the data is
    looked at; with one of the four, that error is never raised. *)
Theorem make_policy_check : forall obj ordered merge key,
  (~ In merge MERGE_STRATEGIES ->
     make obj ordered merge key
     = Raise (ValueError ("Wrong merge strategy: " ++ py_repr merge)))
  /\ (In merge MERGE_STRATEGIES ->
        forall msg, make obj ordered merge key <> Raise (ValueError msg)).
Proof.
  intros obj ordered merge key. split.
  - intro Hnin. apply make_wrong_strategy.
    destruct (is_merge_strategy merge) eqn:E; [|reflexivity].
    apply is_merge_strategy_In in E. contradiction.
  - intros Hin msg. apply is_merge_strategy_In in Hin.
    destruct (make_returns_or_generator ordered merge key Hin obj)
      as [[t Ht]|Ht]; rewrite Ht; discriminate.
Qed.

Lemma make_policy_check_witness :
  make (PList [PInt 1]) false "bogus" NAMEDTUPLE_CLS_KEY
  = Raise (ValueError "Wrong merge strategy: 'bogus'")
  /\ make (PList [PInt 1]) false MS_DICTS NAMEDTUPLE_CLS_KEY
     <> Raise (ValueError "Wrong merge strategy: 'merge_dicts'").
Proof.
  split.
  - apply (proj1 (make_policy_check (PList [PInt 1]) false "bogus"
                    NAMEDTUPLE_CLS_KEY)).
    unfold MERGE_STRATEGIES, MS_REPLACE, MS_NO_REPLACE, MS_DICTS,
      MS_DICTS_AND_LISTS.
    simpl. intros [H|[H|[H|[H|[]]]]]; discriminate.
  - apply (proj2 (make_policy_check (PList [PInt 1]) false MS_DICTS
                    NAMEDTUPLE_CLS_KEY)).
    simpl. right. right. left. reflexivity.
Defined.

(** ** Scalars and Null *)

(** C3 (as the code has it).  With a valid policy [make] returns every
    scalar unchanged; Null is not returned unchanged: it yields an empty
    Mergeable Mapping of the requested policy and ordering. *)
Theorem make_scalar_identity : forall v ordered merge key,
  In merge MERGE_STRATEGIES ->
  (is_scalar v = true -> make v ordered merge key = Ret v)
  /\ make PNone ordered merge key = Ret (PDict (MDict merge ordered) []).
Proof.
  intros v ordered merge key Hin. apply is_merge_strategy_In in Hin.
  split.
  - intro Hs. destruct v; try discriminate; simpl; rewrite Hin; reflexivity.
  - simpl. rewrite Hin. reflexivity.
Qed.

Lemma make_scalar_identity_witness :
  make (PStr "x") true MS_REPLACE NAMEDTUPLE_CLS_KEY = Ret (PStr "x").
Proof.
  apply (proj1 (make_scalar_identity (PStr "x") true MS_REPLACE
                  NAMEDTUPLE_CLS_KEY (or_introl eq_refl))).
  reflexivity.
Defined.

(** Null given to [make] does not come back as Null. *)
Lemma make_null_not_identity :
  In MS_DICTS MERGE_STRATEGIES
  /\ make PNone false MS_DICTS NAMEDTUPLE_CLS_KEY
     = Ret (PDict (MDict MS_DICTS false) [])
  /\ make PNone false MS_DICTS NAMEDTUPLE_CLS_KEY <> Ret PNone.
Proof.
  split; [simpl; tauto|]. split; [reflexivity|discriminate].
Qed.

(** ** Records *)

Lemma mapM_values : forall (g : pyval -> result pyval)
                           (fields : list (string * pyval)) lifted,
  Forall2 (fun fld v' => g (snd fld) = Ret v') fields lifted ->
  mapM (fun kv => v <- g (snd kv) ;; Ret (fst kv, v)) fields
  = Ret (combine (map fst fields) lifted).
Proof.
  intros g fields lifted H.
  induction H as [|[k v] v' fields lifted Hv _ IH]; simpl.
  - reflexivity.
  - simpl in Hv. rewrite Hv. simpl. rewrite IH. reflexivity.
Qed.

Lemma Forall2_same_length : forall (A B : Type) (P : A -> B -> Prop) l l',
  Forall2 P l l' -> List.length l = List.length l'.
Proof.
  intros A B P l l' H. induction H; simpl; [reflexivity|]. f_equal. assumption.
Qed.

(** What [make] builds from a record, provided the marker key is not one
    of the fields.  The fields are lifted by the nested calls of
    [_make_from_namedtuple], which are given [ordered] only. *)
Lemma make_record_shape : forall name fields ordered merge key lifted,
  is_merge_strategy merge = true ->
  NoDup (map fst fields) ->
  ~ In key (map fst fields) ->
  Forall2 (fun fld v' =>
             make (snd fld) ordered MS_DICTS NAMEDTUPLE_CLS_KEY = Ret v')
          fields lifted ->
  make (PNamedTuple name fields) ordered merge key
  = Ret (PDict (MDict merge true)
           (combine (map fst fields) lifted ++ [(key, PStr name)])).
Proof.
  intros name fields ordered merge key lifted Hm Hnd Hkey Hl.
  assert (Hlen : List.length (map fst fields) = List.length lifted).
  { rewrite length_map. eapply Forall2_same_length. exact Hl. }
  simpl. rewrite Hm. simpl. unfold _make_from_namedtuple_with.
  rewrite (mapM_values (fun v => make v ordered MS_DICTS NAMEDTUPLE_CLS_KEY)
             fields lifted Hl).
  simpl.
  rewrite dict_of_items_distinct by (rewrite map_fst_combine; assumption).
  rewrite dict_set_fresh by (rewrite map_fst_combine; assumption).
  reflexivity.
Qed.

(** C5 (as the code has it).  A record whose fields do not include the
    marker key is lifted to an Ordered Mergeable Mapping of the caller's
    policy, whatever the [ordered] argument: its items are the fields in
    declared order, each value lifted by the nested [make] call of
    [_make_from_namedtuple] (which is given the caller's [ordered] flag
    only), followed by the marker key holding the record's type name. *)
Theorem make_record : forall name fields ordered merge key lifted,
  In merge MERGE_STRATEGIES ->
  NoDup (map fst fields) ->
  ~ In key (map fst fields) ->
  Forall2 (fun fld v' =>
             make (snd fld) ordered MS_DICTS NAMEDTUPLE_CLS_KEY = Ret v')
          fields lifted ->
  make (PNamedTuple name fields) ordered merge key
  = Ret (PDict (get_mdict_class merge true)
           (combine (map fst fields) lifted ++ [(key, PStr name)])).
Proof.
  intros name fields ordered merge key lifted Hin.
  apply make_record_shape. apply is_merge_strategy_In. exact Hin.
Qed.

Lemma make_record_witness :
  make (PNamedTuple "Rec" [("a", PInt 1); ("b", PList [PNone])])
       false MS_REPLACE NAMEDTUPLE_CLS_KEY
  = Ret (PDict (MDict MS_REPLACE true)
           [("a", PInt 1); ("b", PList [PDict (MDict MS_DICTS false) []]);
            (NAMEDTUPLE_CLS_KEY, PStr "Rec")]).
Proof.
  apply (make_record "Rec" [("a", PInt 1); ("b", PList [PNone])]
           false MS_REPLACE NAMEDTUPLE_CLS_KEY
           [PInt 1; PList [PDict (MDict MS_DICTS false) []]]).
  - simpl. left. reflexivity.
  - simpl. constructor.
    + simpl. intros [H|[]]. discriminate.
    + constructor; [simpl; tauto|constructor].
  - simpl. intros [H|[H|[]]]; discriminate.
  - constructor; [reflexivity|]. constructor; [reflexivity|]. constructor.
Defined.

(** A record that has a field named like the marker key: the field's value
    is overwritten by the type name and no key is added. *)
Lemma make_record_marker_clash :
  exists items,
    make (PNamedTuple "Rec" [("namedtuple_cls__", PInt 1); ("b", PInt 2)])
         false MS_DICTS NAMEDTUPLE_CLS_KEY
    = Ret (PDict (MDict MS_DICTS true) items)
    /\ make (PInt 1) false MS_DICTS NAMEDTUPLE_CLS_KEY = Ret (PInt 1)
    /\ dict_lookup "namedtuple_cls__" items <> Some (PInt 1)
    /\ map fst items = ["namedtuple_cls__"; "b"].
Proof.
  eexists. split; [reflexivity|]. split; [reflexivity|].
  split; [discriminate|reflexivity].
Qed.

(** The nested calls of the record branch do not get the caller's policy:
    a mapping held by a record is lifted with the default policy. *)
Lemma make_record_field_policy :
  make (PNamedTuple "Rec" [("b", PDict DictPlain [("x", PInt 1)])])
       false MS_REPLACE NAMEDTUPLE_CLS_KEY
  = Ret (PDict (MDict MS_REPLACE true)
           [("b", PDict (MDict MS_DICTS false) [("x", PInt 1)]);
            (NAMEDTUPLE_CLS_KEY, PStr "Rec")]).
Proof. reflexivity. Qed.

(** ** Mappings turned into records *)

Lemma namedtuple_name : forall name names ntpl,
  namedtuple (PStr name) names = Ret ntpl -> ntpl = name.
Proof.
  intros name names ntpl. unfold namedtuple.
  destruct (check_names (name :: names)); simpl; [|discriminate].
  destruct (check_fields [] names); simpl; [|discriminate].
  congruence.
Qed.

Lemma record_items_no_marker : forall key items,
  dict_lookup key items = None -> record_items key items = items.
Proof.
  intros key items. unfold record_items.
  induction items as [|[k v] r IH]; simpl; intro H.
  - reflexivity.
  - destruct (String.eqb k key); [discriminate|].
    simpl. f_equal. apply IH. exact H.
Qed.

(** What [convert_to] builds from a mapping when records are requested,
    provided the values convert and the names make a record class. *)
Lemma convert_to_record_shape : forall cls items ordered key vals name,
  Forall2 (fun kv v' => convert_to (snd kv) ordered true key = Ret v')
          (record_items key items) vals ->
  namedtuple (record_type_name key items) (map fst (record_items key items))
  = Ret name ->
  convert_to (PDict cls items) ordered true key
  = Ret (PNamedTuple name (combine (map fst (record_items key items)) vals)).
Proof.
  intros cls items ordered key vals name Hvals Hname.
  assert (Hlen : List.length (map fst (record_items key items))
                 = List.length vals).
  { rewrite length_map. eapply Forall2_same_length. exact Hvals. }
  simpl. rewrite mapM_if_filter. fold (record_items key items).
  rewrite (mapM_values (fun v => convert_to v ordered true key) _ vals Hvals).
  simpl. fold (record_type_name key items).
  rewrite map_fst_combine by exact Hlen.
  rewrite map_snd_combine by exact Hlen.
  rewrite Hname. reflexivity.
Qed.

Lemma convert_to_record_rejected : forall cls items ordered key vals e,
  Forall2 (fun kv v' => convert_to (snd kv) ordered true key = Ret v')
          (record_items key items) vals ->
  namedtuple (record_type_name key items) (map fst (record_items key items))
  = Raise e ->
  convert_to (PDict cls items) ordered true key = Raise e.
Proof.
  intros cls items ordered key vals e Hvals Hname.
  assert (Hlen : List.length (map fst (record_items key items))
                 = List.length vals).
  { rewrite length_map. eapply Forall2_same_length. exact Hvals. }
  simpl. rewrite mapM_if_filter. fold (record_items key items).
  rewrite (mapM_values (fun v => convert_to v ordered true key) _ vals Hvals).
  simpl. fold (record_type_name key items).
  rewrite map_fst_combine by exact Hlen.
  rewrite Hname. reflexivity.
Qed.

Lemma check_names_accepts : forall names,
  check_names names = Ret tt <-> forallb acceptable_name names = true.
Proof.
  induction names as [|n r IH]; simpl.
  - split; reflexivity.
  - unfold acceptable_name at 1.
    destruct (isidentifier n); simpl; [|split; discriminate].
    destruct (iskeyword n); simpl; [split; discriminate|exact IH].
Qed.

Lemma check_fields_accepts : forall names seen,
  check_fields seen names = Ret tt
  <-> forallb (fun n => negb (starts_with_underscore n)) names = true
      /\ NoDup names /\ (forall x, In x names -> ~ In x seen).
Proof.
  induction names as [|n r IH]; intro seen; simpl.
  - split; [intros _|reflexivity].
    split; [reflexivity|]. split; [constructor|intros x []].
  - destruct (starts_with_underscore n); simpl.
    { split; [discriminate|intros [H _]; discriminate]. }
    destruct (existsb (String.eqb n) seen) eqn:E.
    { split; [discriminate|]. intros (_ & _ & H).
      apply existsb_eqb_In in E. exfalso. apply (H n); [left; reflexivity|exact E]. }
    rewrite IH. split.
    + intros (Hu & Hnd & Hs). split; [exact Hu|]. split.
      * constructor; [|exact Hnd]. intro Hin. apply (Hs n Hin). left. reflexivity.
      * intros x [<-|Hin].
        -- intro Hx. apply existsb_eqb_In in Hx. congruence.
        -- intro Hx. apply (Hs x Hin). right. exact Hx.
    + intros (Hu & Hnd & Hs). inversion Hnd as [|a l Hn Hr]; subst.
      split; [exact Hu|]. split; [exact Hr|].
      intros x Hin [<-|Hx].
      * contradiction.
      * apply (Hs x); [right; exact Hin|exact Hx].
Qed.

(** The names [collections.namedtuple] accepts. *)
Lemma namedtuple_accepts : forall name names,
  namedtuple (PStr name) names = Ret name
  <-> forallb acceptable_name (name :: names) = true
      /\ forallb (fun n => negb (starts_with_underscore n)) names = true
      /\ NoDup names.
Proof.
  intros name names. unfold namedtuple. split.
  - intro H.
    destruct (check_names (name :: names)) as [[]|] eqn:E1; simpl in H;
      [|discriminate].
    destruct (check_fields [] names) as [[]|] eqn:E2; simpl in H;
      [|discriminate].
    apply check_names_accepts in E1. apply check_fields_accepts in E2.
    destruct E2 as (Hu & Hnd & _). split; [exact E1|]. split; assumption.
  - intros (Hn & Hu & Hnd).
    apply check_names_accepts in Hn. rewrite Hn. simpl.
    assert (Hf : check_fields [] names = Ret tt).
    { apply check_fields_accepts. split; [exact Hu|]. split; [exact Hnd|].
      intros x _ []. }
    rewrite Hf. reflexivity.
Qed.

(** C10 (as the code has it).  When records are requested and the values
    of a mapping convert, the mapping becomes a record exactly when
    [collections.namedtuple] accepts the names: the fields are the keys
    other than the marker key, in mapping order; the type name is the
    marker's value, and without a marker key it is "NamedTuple" and the
    fields are all the keys.  When [collections.namedtuple] rejects the
    names its error leaves [convert_to].  The names it accepts are
    identifiers that are no keywords, the fields distinct and not
    starting with an underscore; a marker value that is not text is never
    accepted as a type name. *)
Theorem convert_to_record : forall cls items ordered key vals,
  Forall2 (fun kv v' => convert_to (snd kv) ordered true key = Ret v')
          (record_items key items) vals ->
  (forall name,
     namedtuple (record_type_name key items)
                (map fst (record_items key items)) = Ret name ->
     convert_to (PDict cls items) ordered true key
     = Ret (PNamedTuple name (combine (map fst (record_items key items)) vals))
     /\ (dict_lookup key items = None ->
           name = "NamedTuple" /\ record_items key items = items))
  /\ (forall e,
        namedtuple (record_type_name key items)
                   (map fst (record_items key items)) = Raise e ->
        convert_to (PDict cls items) ordered true key = Raise e)
  /\ (forall name names,
        namedtuple (PStr name) names = Ret name
        <-> forallb acceptable_name (name :: names) = true
            /\ forallb (fun n => negb (starts_with_underscore n)) names = true
            /\ NoDup names)
  /\ (forall v names,
        match v with PStr _ => False | _ => True end ->
        exists e, namedtuple v names = Raise e).
Proof.
  intros cls items ordered key vals Hvals.
  split; [|split; [|split]].
  - intros name Hname. split.
    + apply convert_to_record_shape; assumption.
    + intro Hnone. split.
      * unfold record_type_name in Hname. rewrite Hnone in Hname.
        apply namedtuple_name in Hname. exact Hname.
      * apply record_items_no_marker. exact Hnone.
  - intros e He. eapply convert_to_record_rejected; eassumption.
  - exact namedtuple_accepts.
  - intros v names Hv. destruct v; try contradiction; simpl;
      eexists; reflexivity.
Qed.

Lemma convert_to_record_witness :
  convert_to (PDict DictPlain [("x", PInt 1); ("y", PDict DictPlain [])])
             false true NAMEDTUPLE_CLS_KEY
  = Ret (PNamedTuple "NamedTuple"
           [("x", PInt 1); ("y", PNamedTuple "NamedTuple" [])])
  /\ convert_to (PDict DictPlain [("class", PInt 1)]) false true
                NAMEDTUPLE_CLS_KEY
     = Raise (ValueError
                "Type names and field names cannot be a keyword: 'class'").
Proof.
  split.
  - apply (proj1 (convert_to_record DictPlain
                    [("x", PInt 1); ("y", PDict DictPlain [])] false
                    NAMEDTUPLE_CLS_KEY [PInt 1; PNamedTuple "NamedTuple" []]
                    ltac:(constructor; [reflexivity|];
                          constructor; [reflexivity|]; constructor))
                 "NamedTuple").
    reflexivity.
  - apply (proj1 (proj2 (convert_to_record DictPlain [("class", PInt 1)] false
                    NAMEDTUPLE_CLS_KEY [PInt 1]
                    ltac:(constructor; [reflexivity|]; constructor)))).
    reflexivity.
Defined.

(** A mapping with a key that is no field name is not turned into a
    record: the conversion raises. *)
Lemma convert_to_record_bad_key :
  convert_to (PDict DictPlain [("_x", PInt 1)]) false true NAMEDTUPLE_CLS_KEY
  = Raise (ValueError "Field names cannot start with an underscore: '_x'")
  /\ forall r, convert_to (PDict DictPlain [("_x", PInt 1)]) false true
                 NAMEDTUPLE_CLS_KEY <> Ret r.
Proof. split; [reflexivity|discriminate]. Qed.

(** ** Round trip of records *)

Lemma check_fields_distinct : forall names seen,
  check_fields seen names = Ret tt ->
  NoDup names /\ forall x, In x names -> ~ In x seen.
Proof.
  induction names as [|n r IH]; intros seen H; simpl in *.
  - split; [constructor|]. intros x [].
  - destruct (starts_with_underscore n); [discriminate|].
    destruct (existsb (String.eqb n) seen) eqn:E; [discriminate|].
    apply IH in H. destruct H as [Hnd Hseen].
    assert (Hn : ~ In n seen).
    { intro Hin. apply existsb_eqb_In in Hin. congruence. }
    split.
    + constructor; [|exact Hnd].
      intro Hin. apply (Hseen n Hin). left. reflexivity.
    + intros x [<-|Hin]; [exact Hn|].
      intro Hx. apply (Hseen x Hin). right. exact Hx.
Qed.

Lemma valid_record_inv : forall name names,
  valid_record name names = true ->
  namedtuple (PStr name) names = Ret name /\ NoDup names.
Proof.
  intros name names. unfold valid_record, namedtuple.
  destruct (check_names (name :: names)) as [[]|]; simpl; [|discriminate].
  destruct (check_fields [] names) as [[]|] eqn:E; simpl; [|discriminate].
  intros _. split; [reflexivity|].
  apply check_fields_distinct in E. apply E.
Qed.

Lemma Forall_exists_Forall2 : forall (A B : Type) (P : A -> B -> Prop) l,
  Forall (fun a => exists b, P a b) l -> exists bs, Forall2 P l bs.
Proof.
  intros A B P l H. induction H as [|a l [b Hb] _ [bs Hbs]].
  - exists []. constructor.
  - exists (b :: bs). constructor; assumption.
Qed.

Lemma record_items_lifted : forall key (names : list string) (lifted : list pyval) v,
  ~ In key names ->
  record_items key (combine names lifted ++ [(key, v)]) = combine names lifted.
Proof.
  intros key names lifted v Hkey. unfold record_items.
  rewrite filter_app. simpl. rewrite String.eqb_refl. simpl.
  rewrite app_nil_r.
  revert lifted. induction names as [|n r IH]; intros [|t ts]; simpl;
    try reflexivity.
  destruct (String.eqb n key) eqn:E.
  - apply String.eqb_eq in E. subst. exfalso. apply Hkey. left. reflexivity.
  - simpl. f_equal. apply IH. intro Hin. apply Hkey. right. exact Hin.
Qed.

Lemma Forall2_combine_values : forall (R : pyval -> pyval -> Prop)
    (fields : list (string * pyval)) lifted,
  Forall2 (fun fld t => R t (snd fld)) fields lifted ->
  Forall2 (fun kv v' => R (snd kv) v')
          (combine (map fst fields) lifted) (map snd fields).
Proof.
  intros R fields lifted H.
  induction H as [|[k v] t fields lifted Ht _ IH]; simpl.
  - constructor.
  - constructor; assumption.
Qed.

(** Lifting then lowering with record reconstruction, both with the marker
    key the nested calls of the record branch use, gives back data that
    hold neither Null nor a mapping, whatever the policy. *)
Lemma make_convert_to_roundtrip : forall ordered ordered' key,
  key = NAMEDTUPLE_CLS_KEY ->
  forall v, marker_free_data key v = true ->
    forall merge, is_merge_strategy merge = true ->
      exists t, make v ordered merge key = Ret t
                /\ convert_to t ordered' true key = Ret v.
Proof.
  intros ordered ordered' key Hk.
  induction v as [| b | n | s | xs IH | xs IH | cls items IH
                  | name fields IH |] using pyval_nested_ind;
    intros Hsafe merge Hm; try discriminate.
  - exists (PBool b). simpl. rewrite Hm. split; reflexivity.
  - exists (PInt n). simpl. rewrite Hm. split; reflexivity.
  - exists (PStr s). simpl. rewrite Hm. split; reflexivity.
  - simpl in Hsafe. rewrite forallb_forall in Hsafe.
    destruct (Forall_exists_Forall2 _ _
                (fun x t => make x ordered merge key = Ret t
                            /\ convert_to t ordered' true key = Ret x) xs)
      as [ts Hts].
    { rewrite Forall_forall in IH |- *. intros x Hx.
      apply IH; [exact Hx| |exact Hm]. apply Hsafe. exact Hx. }
    exists (PList ts). split.
    + simpl. rewrite Hm. simpl.
      rewrite (mapM_Forall2 _ _ (fun v => make v ordered merge key) xs ts).
      * reflexivity.
      * eapply Forall2_impl; [|exact Hts]. intros a b' [H _]. exact H.
    + simpl.
      rewrite (mapM_Forall2 _ _ (fun v => convert_to v ordered' true key) ts xs).
      * reflexivity.
      * apply Forall2_flip.
        eapply Forall2_impl; [|exact Hts]. intros a b' [_ H]. exact H.
  - simpl in Hsafe. rewrite forallb_forall in Hsafe.
    destruct (Forall_exists_Forall2 _ _
                (fun x t => make x ordered merge key = Ret t
                            /\ convert_to t ordered' true key = Ret x) xs)
      as [ts Hts].
    { rewrite Forall_forall in IH |- *. intros x Hx.
      apply IH; [exact Hx| |exact Hm]. apply Hsafe. exact Hx. }
    exists (PTuple ts). split.
    + simpl. rewrite Hm. simpl.
      rewrite (mapM_Forall2 _ _ (fun v => make v ordered merge key) xs ts).
      * reflexivity.
      * eapply Forall2_impl; [|exact Hts]. intros a b' [H _]. exact H.
    + simpl.
      rewrite (mapM_Forall2 _ _ (fun v => convert_to v ordered' true key) ts xs).
      * reflexivity.
      * apply Forall2_flip.
        eapply Forall2_impl; [|exact Hts]. intros a b' [_ H]. exact H.
  - simpl in Hsafe.
    apply andb_true_iff in Hsafe. destruct Hsafe as [Hsafe Hvals].
    apply andb_true_iff in Hsafe. destruct Hsafe as [Hvalid Hkey].
    apply valid_record_inv in Hvalid. destruct Hvalid as [Hnt Hnd].
    assert (Hkey' : ~ In key (map fst fields)).
    { intro Hin. apply existsb_eqb_In in Hin. rewrite Hin in Hkey. discriminate. }
    rewrite forallb_forall in Hvals.
    destruct (Forall_exists_Forall2 _ _
                (fun (fld : string * pyval) t =>
                   make (snd fld) ordered MS_DICTS key = Ret t
                   /\ convert_to t ordered' true key = Ret (snd fld)) fields)
      as [lifted Hl].
    { rewrite Forall_forall in IH |- *. intros fld Hfld.
      apply IH; [exact Hfld| |exact MS_DICTS_is_strategy].
      apply Hvals. exact Hfld. }
    assert (Hlen : List.length (map fst fields) = List.length lifted).
    { rewrite length_map. eapply Forall2_same_length. exact Hl. }
    eexists. split.
    + apply make_record_shape; try assumption.
      rewrite <- Hk.
      eapply Forall2_impl; [|exact Hl]. intros a b' [H _]. exact H.
    + assert (Hitems : record_items key
                         (combine (map fst fields) lifted ++ [(key, PStr name)])
                       = combine (map fst fields) lifted)
        by (apply record_items_lifted; exact Hkey').
      assert (Hfst : map fst (combine (map fst fields) lifted) = map fst fields)
        by (apply map_fst_combine; exact Hlen).
      rewrite (convert_to_record_shape _ _ ordered' key (map snd fields) name).
      * rewrite Hitems, Hfst, combine_fst_snd. reflexivity.
      * rewrite Hitems.
        apply (Forall2_combine_values
                 (fun t x => convert_to t ordered' true key = Ret x)).
        eapply Forall2_impl; [|exact Hl]. intros a b' [_ H]. exact H.
      * rewrite Hitems, Hfst. unfold record_type_name.
        rewrite dict_lookup_app_fresh by (rewrite Hfst; exact Hkey').
        exact Hnt.
Qed.

(** C6 (as the code has it).  A record with a valid class, whose fields
    avoid the marker key and whose values hold neither Null nor a mapping
    (scalars, sequences, and such records again), is given back unchanged
    by [make] followed by [convert_to] with record reconstruction, for
    every policy and both with the reserved marker key: same type name,
    same field names in the same order, same values. *)
Theorem record_roundtrip : forall name fields ordered merge ordered',
  In merge MERGE_STRATEGIES ->
  marker_free_data NAMEDTUPLE_CLS_KEY (PNamedTuple name fields) = true ->
  exists t,
    make (PNamedTuple name fields) ordered merge NAMEDTUPLE_CLS_KEY = Ret t
    /\ convert_to t ordered' true NAMEDTUPLE_CLS_KEY
       = Ret (PNamedTuple name fields).
Proof.
  intros name fields ordered merge ordered' Hin Hsafe.
  apply make_convert_to_roundtrip; [reflexivity|exact Hsafe|].
  apply is_merge_strategy_In. exact Hin.
Qed.

Lemma record_roundtrip_witness :
  exists t,
    make (PNamedTuple "Rec"
            [("a", PInt 1); ("b", PNamedTuple "Inner" [("c", PList [PInt 2])])])
         false MS_REPLACE NAMEDTUPLE_CLS_KEY = Ret t
    /\ convert_to t false true NAMEDTUPLE_CLS_KEY
       = Ret (PNamedTuple "Rec"
                [("a", PInt 1);
                 ("b", PNamedTuple "Inner" [("c", PList [PInt 2])])]).
Proof.
  apply (record_roundtrip "Rec"
           [("a", PInt 1); ("b", PNamedTuple "Inner" [("c", PList [PInt 2])])]
           false MS_REPLACE false).
  - simpl. left. reflexivity.
  - reflexivity.
Defined.

(** With another marker key the round trip breaks at a nested record: the
    nested calls of the record branch use the reserved marker key, which
    [convert_to] then takes for a field. *)
Lemma record_roundtrip_other_marker :
  exists t,
    make (PNamedTuple "Rec" [("a", PNamedTuple "Inner" [("b", PInt 1)])])
         false MS_DICTS "k" = Ret t
    /\ convert_to t false true "k"
       = Ret (PNamedTuple "Rec"
                [("a", PNamedTuple "NamedTuple"
                         [("b", PInt 1); ("namedtuple_cls__", PStr "Inner")])]).
Proof. eexists. split; reflexivity. Qed.

(** A record that holds a mapping does not come back: the mapping comes
    back as a record of its own. *)
Lemma record_roundtrip_mapping_field :
  valid_record "Rec" ["b"] = true
  /\ exists t r,
       make (PNamedTuple "Rec" [("b", PDict DictPlain [("x", PInt 1)])])
            false MS_DICTS NAMEDTUPLE_CLS_KEY = Ret t
       /\ convert_to t false true NAMEDTUPLE_CLS_KEY = Ret r
       /\ r = PNamedTuple "Rec" [("b", PNamedTuple "NamedTuple" [("x", PInt 1)])]
       /\ r <> PNamedTuple "Rec" [("b", PDict DictPlain [("x", PInt 1)])].
Proof.
  split; [reflexivity|].
  eexists. eexists. split; [reflexivity|]. split; [reflexivity|].
  split; [reflexivity|discriminate].
Qed.

(** A record that holds Null: [make] lifts the Null field to an empty
    mapping, which comes back as an empty record. *)
Lemma record_roundtrip_null_field :
  exists t,
    make (PNamedTuple "Rec" [("a", PNone)]) false MS_DICTS NAMEDTUPLE_CLS_KEY
    = Ret t
    /\ convert_to t false true NAMEDTUPLE_CLS_KEY
       = Ret (PNamedTuple "Rec" [("a", PNamedTuple "NamedTuple" [])]).
Proof. eexists. split; reflexivity. Qed.

(** * Further properties *)

(** ** Results of the accessor *)












(** ** Index access through the last token *)





(** The guarded part of [get] for tokens [pre] followed by a last token. *)
Lemma get_items_snoc : forall dic pre tok,
  pre <> [] ->
  get_items dic (pre ++ [tok])
  = except_lookup_errors
      (prnt <- reduce_getitem pre dic ;;
       if is_list_like prnt && is_some (_JSNP_GET_ARRAY_IDX_REG_match tok)
       then i <- py_int tok ;; v <- getitem prnt (KInt i) ;; Ret (v, "")
       else v <- getitem prnt (KStr tok) ;; Ret (v, "")).
Proof.
  intros dic pre tok Hpre.
  assert (Hrl : removelast (pre ++ [tok]) = pre) by apply removelast_last.
  assert (Hl : last (pre ++ [tok]) "" = tok) by apply last_last.
  destruct (pre ++ [tok]) as [|a [|b r]] eqn:E.
  - destruct pre; discriminate.
  - destruct pre as [|p pre']; [contradiction|].
    simpl in E. inversion E. destruct pre'; discriminate.
  - rewrite get_items_multi, Hrl, Hl. reflexivity.
Qed.





(** An index beyond the index-sized integers. *)
Lemma get_list_index_too_large :
  get doc_tree "/a/b/d/99999999999999999999"
  = Ret (PNone, "cannot fit 'int' into an index-sized integer").
Proof. vm_compute. reflexivity. Qed.

(** ** Pointer escaping *)

Lemma unescape_one_pass_skip : forall c t,
  Ascii.eqb c "~" = false ->
  unescape_one_pass (String c t) = String c (unescape_one_pass t).
Proof.
  intros c t Hc. destruct t as [|d rest]; [reflexivity|].
  cbn [unescape_one_pass]. rewrite Hc. reflexivity.
Qed.

Lemma unescape_one_pass_escape : forall s,
  unescape_one_pass (jsnp_escape s) = s.
Proof.
  induction s as [|c r IH]; [reflexivity|].
  cbn [jsnp_escape].
  destruct (Ascii.eqb c "~") eqn:Et.
  - apply Ascii.eqb_eq in Et. subst c.
    cbn [unescape_one_pass Ascii.eqb Bool.eqb andb]. rewrite IH. reflexivity.
  - destruct (Ascii.eqb c "/") eqn:Es.
    + apply Ascii.eqb_eq in Es. subst c.
      cbn [unescape_one_pass Ascii.eqb Bool.eqb andb]. rewrite IH. reflexivity.
    + rewrite unescape_one_pass_skip by exact Et. rewrite IH. reflexivity.
Qed.

Lemma jsnp_unescape_escape_aux : forall s,
  _jsnp_unescape (jsnp_escape s) = s.
Proof.
  intro s.
  rewrite (unescape_is_one_pass_upto (String.length (jsnp_escape s)))
    by apply Nat.le_refl.
  apply unescape_one_pass_escape.
Qed.

(** X4.  [_jsnp_unescape] undoes the pointer escaping of any text: a key
    written with "~0" for "~" and "~1" for "/" is decoded to the key
    itself. *)
Theorem jsnp_unescape_escape : forall s,
  _jsnp_unescape (jsnp_escape s) = s.
Proof. exact jsnp_unescape_escape_aux. Qed.

Lemma jsnp_escape_no_slash : forall s,
  str_contains "/" (jsnp_escape s) = false.
Proof.
  induction s as [|c r IH]; [reflexivity|].
  cbn [jsnp_escape].
  destruct (Ascii.eqb c "~") eqn:Et.
  - simpl. exact IH.
  - destruct (Ascii.eqb c "/") eqn:Es.
    + simpl. exact IH.
    + cbn [str_contains]. rewrite Es, IH. reflexivity.
Qed.

Lemma jsnp_escape_empty : forall s, jsnp_escape s = "" -> s = "".
Proof.
  intros [|c r]; [reflexivity|]. cbn [jsnp_escape].
  destruct (Ascii.eqb c "~"); [discriminate|].
  destruct (Ascii.eqb c "/"); discriminate.
Qed.

Lemma str_split_no_sep : forall sep s,
  str_contains sep s = false -> str_split sep s = [s].
Proof.
  intros sep s. induction s as [|c r IH]; simpl; intro H.
  - reflexivity.
  - apply orb_false_iff in H. destruct H as [Hc Hr].
    rewrite Hc, (IH Hr). reflexivity.
Qed.

Lemma split_leading_sep : forall sep e,
  str_contains sep e = false -> e <> "" ->
  filter str_truth (str_split sep (String sep e)) = [e].
Proof.
  intros sep e Hno Hne. cbn [str_split]. rewrite Ascii.eqb_refl.
  cbn [filter str_truth]. rewrite (str_split_no_sep sep e Hno).
  destruct e; [contradiction|reflexivity].
Qed.

(** A pointer made of one escaped key splits into that escaped key. *)
Lemma split_path_escaped_key : forall k,
  map _jsnp_unescape (_split_path (String "/" (jsnp_escape k)) PATH_SEPS) = [k].
Proof.
  intro k. unfold _split_path. cbn [str_truth negb].
  unfold PATH_SEPS. cbn [_split_path_loop str_contains Ascii.eqb Bool.eqb orb].
  destruct (String.eqb (String "/" (jsnp_escape k)) "/") eqn:E.
  - apply String.eqb_eq in E. inversion E as [He].
    apply jsnp_escape_empty in He. subst k. reflexivity.
  - rewrite split_leading_sep.
    + cbn [map]. rewrite jsnp_unescape_escape_aux. reflexivity.
    + apply jsnp_escape_no_slash.
    + intro He. rewrite He in E. discriminate.
Qed.

(** X5.  Every key of a mapping, whatever characters it holds, can be
    addressed by the pointer "/" followed by the escaped key: [get] returns
    the value stored under the key, or Null and a non-empty message when
    the mapping does not have it. *)
Theorem get_escaped_key : forall cls items k,
  match dict_lookup k items with
  | Some v => get (PDict cls items) (String "/" (jsnp_escape k)) = Ret (v, "")
  | None =>
      exists msg,
        get (PDict cls items) (String "/" (jsnp_escape k)) = Ret (PNone, msg)
        /\ msg <> ""
  end.
Proof.
  intros cls items k. unfold get. rewrite split_path_escaped_key.
  cbn [get_items getitem]. destruct (dict_lookup k items).
  - reflexivity.
  - exists (py_repr k). split; [reflexivity|discriminate].
Qed.

(** ** Paths without token *)

Lemma split_all_sep : forall sep s,
  filter str_truth (str_split sep s) = [] <-> str_all_eq sep s = true.
Proof.
  intros sep s. induction s as [|c r IH]; simpl.
  - split; reflexivity.
  - destruct (Ascii.eqb c sep) eqn:E; simpl.
    + exact IH.
    + split; [|discriminate].
      destruct (str_split sep r); simpl; discriminate.
Qed.

Lemma str_all_eq_contains : forall sep s,
  str_all_eq sep s = true -> s <> "" -> str_contains sep s = true.
Proof.
  intros sep [|c r] H Hne; [contradiction|].
  simpl in *. apply andb_true_iff in H. destruct H as [H _].
  rewrite H. reflexivity.
Qed.

Lemma str_all_eq_other : forall c d s,
  str_all_eq c s = true -> s <> "" -> Ascii.eqb c d = false ->
  str_contains d s = false.
Proof.
  intros c d s. induction s as [|e r IH]; intros H Hne Hcd; [contradiction|].
  simpl in *. apply andb_true_iff in H. destruct H as [He Hr].
  apply Ascii.eqb_eq in He. subst e. rewrite Hcd. simpl.
  destruct r as [|e' r']; [reflexivity|].
  apply IH; [exact Hr|discriminate|exact Hcd].
Qed.

Lemma split_path_nil_iff : forall path,
  _split_path path PATH_SEPS = []
  <-> path = ""
      \/ ((2 <= String.length path)%nat
          /\ (str_all_eq "/" path = true \/ str_all_eq "." path = true)).
Proof.
  intro path. rewrite split_path_unfold. unfold chosen_sep, PATH_SEPS.
  destruct path as [|c r]; [simpl; split; [left; reflexivity|reflexivity]|].
  cbn [str_truth negb find].
  split.
  - intro H. right.
    destruct (str_contains "/" (String c r)) eqn:Es.
    + destruct (String.eqb (String c r) "/") eqn:E1; [discriminate|].
      apply split_all_sep in H.
      split; [|left; exact H].
      destruct r as [|d r']; [|simpl; lia].
      simpl in H. rewrite andb_true_r in H. apply Ascii.eqb_eq in H. subst c.
      discriminate.
    + destruct (str_contains "." (String c r)) eqn:Ed; [|discriminate].
      destruct (String.eqb (String c r) ".") eqn:E1; [discriminate|].
      apply split_all_sep in H.
      split; [|right; exact H].
      destruct r as [|d r']; [|simpl; lia].
      simpl in H. rewrite andb_true_r in H. apply Ascii.eqb_eq in H. subst c.
      discriminate.
  - intros [H|[Hlen [H|H]]]; [discriminate| |].
    + rewrite (str_all_eq_contains "/" _ H) by discriminate.
      destruct (String.eqb (String c r) "/") eqn:E1.
      * apply String.eqb_eq in E1. inversion E1. subst. simpl in Hlen. lia.
      * apply split_all_sep. exact H.
    + rewrite (str_all_eq_other "." "/" _ H) by (discriminate || reflexivity).
      rewrite (str_all_eq_contains "." _ H) by discriminate.
      destruct (String.eqb (String c r) ".") eqn:E1.
      * apply String.eqb_eq in E1. inversion E1. subst. simpl in Hlen. lia.
      * apply split_all_sep. exact H.
Qed.

(** X6.  A path has no token exactly when it is empty or made of two or
    more copies of one separator and nothing else ("//", "..."); a lone
    separator is the path of the empty key. *)
Theorem split_path_no_token : forall path,
  _split_path path PATH_SEPS = []
  <-> path = ""
      \/ ((2 <= String.length path)%nat
          /\ (str_all_eq "/" path = true \/ str_all_eq "." path = true)).
Proof. exact split_path_nil_iff. Qed.

(** ** Nested mappings *)

Lemma mk_nested_fold : forall val toks,
  fold_right
    (fun key ret => PDict DictPlain [(key, if is_None ret then val else ret)])
    PNone toks
  = match toks with [] => PNone | _ => nest toks val end.
Proof.
  intros val toks. induction toks as [|k r IH]; [reflexivity|].
  cbn [fold_right]. rewrite IH.
  destruct r; reflexivity.
Qed.

(** The loop of [mk_nested_dic] builds the single-branch nesting of the
    tokens, and [None] when there is no token. *)
Lemma mk_nested_dic_tokens : forall path val seps,
  mk_nested_dic path val seps
  = match _split_path path seps with
    | [] => PNone
    | toks => nest toks val
    end.
Proof.
  intros path val seps. unfold mk_nested_dic.
  rewrite <- fold_left_rev_right, rev_involutive.
  rewrite mk_nested_fold. destruct (_split_path path seps); reflexivity.
Qed.

Lemma reduce_getitem_nest : forall pre rest val,
  reduce_getitem pre (nest (pre ++ rest) val) = Ret (nest rest val).
Proof.
  induction pre as [|k r IH]; intros rest val; [reflexivity|].
  cbn [app nest reduce_getitem getitem dict_lookup].
  rewrite String.eqb_refl. cbn [bind]. apply IH.
Qed.

Lemma get_items_nest : forall toks val,
  toks <> [] -> get_items (nest toks val) toks = Ret (val, "").
Proof.
  intros toks val Hne.
  destruct (exists_last Hne) as [pre [tok Ht]]. subst toks.
  destruct pre as [|p pre'].
  - cbn [app nest get_items getitem dict_lookup].
    rewrite String.eqb_refl. reflexivity.
  - rewrite get_items_snoc by discriminate.
    rewrite reduce_getitem_nest.
    cbn [bind nest is_list_like andb getitem dict_lookup].
    rewrite String.eqb_refl. reflexivity.
Qed.

Lemma replace2_without_first : forall a b new s,
  str_contains a s = false -> str_replace2 a b new s = s.
Proof.
  intros a b new s. induction s as [|c r IH]; intro H; [reflexivity|].
  simpl in H. apply orb_false_iff in H. destruct H as [Hc Hr].
  rewrite replace2_skip by exact Hc. rewrite (IH Hr). reflexivity.
Qed.

(** Text without "~" is left as it is by unescaping. *)
Lemma unescape_without_tilde : forall s,
  str_contains "~" s = false -> _jsnp_unescape s = s.
Proof.
  intros s H. unfold _jsnp_unescape.
  rewrite (replace2_without_first "~" "1" "/" s H).
  apply replace2_without_first. exact H.
Qed.

Lemma str_split_pieces_without : forall c sep s,
  str_contains c s = false ->
  Forall (fun piece => str_contains c piece = false) (str_split sep s).
Proof.
  intros c sep s. induction s as [|d r IH]; intro H; simpl.
  - constructor; [reflexivity|constructor].
  - simpl in H. apply orb_false_iff in H. destruct H as [Hd Hr].
    specialize (IH Hr).
    destruct (Ascii.eqb d sep).
    + constructor; [reflexivity|exact IH].
    + destruct (str_split sep r) as [|piece pieces].
      * constructor; [simpl; rewrite Hd; reflexivity|constructor].
      * inversion IH; subst. constructor; [|assumption].
        simpl. rewrite Hd. assumption.
Qed.

Lemma split_path_tokens_without : forall c path,
  str_contains c path = false ->
  Forall (fun tok => str_contains c tok = false) (_split_path path PATH_SEPS).
Proof.
  intros c path H. rewrite split_path_unfold.
  destruct (negb (str_truth path)); [constructor|].
  destruct (chosen_sep path) as [sep|].
  - destruct (String.eqb path (String sep "")).
    + constructor; [reflexivity|constructor].
    + apply Forall_forall. intros tok Hin. apply filter_In in Hin.
      pose proof (str_split_pieces_without c sep path H) as Hall.
      rewrite Forall_forall in Hall. apply Hall. apply Hin.
  - constructor; [exact H|constructor].
Qed.

Lemma map_unescape_fixed : forall toks,
  Forall (fun tok => _jsnp_unescape tok = tok) toks ->
  map _jsnp_unescape toks = toks.
Proof.
  intros toks H. induction H as [|t r Ht _ IH]; simpl; [reflexivity|].
  rewrite Ht, IH. reflexivity.
Qed.

Lemma get_mk_nested_dic_shape : forall path val,
  _split_path path PATH_SEPS <> [] ->
  Forall (fun tok => _jsnp_unescape tok = tok) (_split_path path PATH_SEPS) ->
  get (mk_nested_dic path val PATH_SEPS) path = Ret (val, "").
Proof.
  intros path val Hne Hfix. unfold get.
  rewrite mk_nested_dic_tokens, (map_unescape_fixed _ Hfix).
  destruct (_split_path path PATH_SEPS) as [|t r] eqn:E; [contradiction|].
  apply get_items_nest. discriminate.
Qed.

(** X7.  Reading a path back from the nesting [mk_nested_dic] built for it
    gives the value, provided the path has a token and unescaping changes
    none of its tokens; a path without "~" is such a path. *)
Theorem get_mk_nested_dic : forall path val,
  _split_path path PATH_SEPS <> [] ->
  (Forall (fun tok => _jsnp_unescape tok = tok) (_split_path path PATH_SEPS)
   \/ str_contains "~" path = false) ->
  get (mk_nested_dic path val PATH_SEPS) path = Ret (val, "").
Proof.
  intros path val Hne [Hfix|Hno].
  - apply get_mk_nested_dic_shape; assumption.
  - apply get_mk_nested_dic_shape; [exact Hne|].
    eapply Forall_impl; [|apply (split_path_tokens_without "~" path Hno)].
    intros tok Htok. apply unescape_without_tilde. exact Htok.
Qed.

Lemma get_mk_nested_dic_witness :
  get (mk_nested_dic "/a/b.c/d" (PInt 1) PATH_SEPS) "/a/b.c/d"
  = Ret (PInt 1, "").
Proof.
  apply (get_mk_nested_dic "/a/b.c/d" (PInt 1)).
  - discriminate.
  - right. reflexivity.
Defined.

(** X8.  [mk_nested_dic] keeps the tokens as they are written while [get]
    unescapes them: when unescaping changes the first token of a path, the
    nesting built for the path does not have the key [get] looks for, and
    reading the path back gives Null and a non-empty message. *)
Theorem get_mk_nested_dic_escaped : forall path val tok rest,
  _split_path path PATH_SEPS = tok :: rest ->
  _jsnp_unescape tok <> tok ->
  exists msg,
    get (mk_nested_dic path val PATH_SEPS) path = Ret (PNone, msg)
    /\ msg <> "".
Proof.
  intros path val tok rest Hsplit Hesc.
  exists (py_repr (_jsnp_unescape tok)). split; [|discriminate].
  unfold get.
  rewrite mk_nested_dic_tokens, Hsplit.
  assert (Hlook : String.eqb tok (_jsnp_unescape tok) = false).
  { apply String.eqb_neq. congruence. }
  destruct rest as [|t2 r2].
  - cbn [map nest get_items getitem dict_lookup]. rewrite Hlook. reflexivity.
  - cbn [map]. rewrite get_items_multi.
    cbn [removelast map nest reduce_getitem getitem dict_lookup].
    destruct (map _jsnp_unescape r2) eqn:Er.
    + cbn [reduce_getitem getitem dict_lookup]. rewrite Hlook. reflexivity.
    + cbn [reduce_getitem getitem dict_lookup]. rewrite Hlook. reflexivity.
Qed.

Lemma get_mk_nested_dic_escaped_witness :
  exists msg,
    get (mk_nested_dic "/a~1b" (PInt 1) PATH_SEPS) "/a~1b" = Ret (PNone, msg)
    /\ msg <> "".
Proof.
  apply (get_mk_nested_dic_escaped "/a~1b" (PInt 1) "a~1b" []).
  - reflexivity.
  - discriminate.
Defined.

(** ** The setter on built-in mappings *)

Lemma dict_lookup_set_same : forall k v items,
  dict_lookup k (dict_set k v items) = Some v.
Proof.
  intros k v items. induction items as [|[k' v'] r IH]; simpl.
  - rewrite String.eqb_refl. reflexivity.
  - destruct (String.eqb k' k) eqn:E; simpl; rewrite E; [reflexivity|exact IH].
Qed.

Lemma dict_lookup_set_other : forall k k2 v items,
  k2 <> k -> dict_lookup k2 (dict_set k v items) = dict_lookup k2 items.
Proof.
  intros k k2 v items Hne. induction items as [|[k' v'] r IH]; simpl.
  - destruct (String.eqb k k2) eqn:E; [|reflexivity].
    apply String.eqb_eq in E. congruence.
  - destruct (String.eqb k' k) eqn:E; simpl.
    + apply String.eqb_eq in E. subst k'.
      destruct (String.eqb k k2) eqn:E2; [|reflexivity].
      apply String.eqb_eq in E2. congruence.
    + destruct (String.eqb k' k2); [reflexivity|exact IH].
Qed.

(** Assigning a key keeps the keys and their order; a new key goes last. *)
Lemma dict_set_keys : forall k v items,
  map fst (dict_set k v items)
  = if existsb (String.eqb k) (map fst items) then map fst items
    else map fst items ++ [k].
Proof.
  intros k v items. induction items as [|[k' v'] r IH]; simpl.
  - reflexivity.
  - rewrite (String.eqb_sym k k').
    destruct (String.eqb k' k) eqn:E; simpl.
    + apply String.eqb_eq in E. subst k'. reflexivity.
    + rewrite IH. destruct (existsb (String.eqb k) (map fst r)); reflexivity.
Qed.

(** What [set_] does to the items, in terms of the tokens of the path. *)
Lemma set_tokens : forall items path val,
  set_ items path val PATH_SEPS
  = match _split_path path PATH_SEPS with
    | [] => Raise (TypeError "'NoneType' object is not iterable")
    | tok :: rest => Ret (dict_set tok (nest rest val) items)
    end.
Proof.
  intros items path val. unfold set_. rewrite mk_nested_dic_tokens.
  destruct (_split_path path PATH_SEPS) as [|tok rest]; reflexivity.
Qed.

(** Only the entry of the first token matters to a lookup that starts with
    that token. *)
Lemma get_items_head_entry : forall cls1 items1 cls2 items2 k r,
  dict_lookup k items1 = dict_lookup k items2 ->
  get_items (PDict cls1 items1) (k :: r) = get_items (PDict cls2 items2) (k :: r).
Proof.
  intros cls1 items1 cls2 items2 k r H.
  destruct r as [|b r'].
  - cbn [get_items getitem]. rewrite H. reflexivity.
  - rewrite !get_items_multi.
    assert (Hrl : removelast (k :: b :: r') = k :: removelast (b :: r'))
      by reflexivity.
    rewrite Hrl. cbn [reduce_getitem getitem]. rewrite H. reflexivity.
Qed.

(** X9.  [set_] fails with a [TypeError] exactly on the paths without
    token, the empty path and the paths made only of two or more copies of
    one separator; on every other path it returns. *)
Theorem set_no_token : forall items path val,
  (set_ items path val PATH_SEPS
   = Raise (TypeError "'NoneType' object is not iterable")
   <-> path = ""
       \/ ((2 <= String.length path)%nat
           /\ (str_all_eq "/" path = true \/ str_all_eq "." path = true)))
  /\ ((exists items', set_ items path val PATH_SEPS = Ret items')
      <-> _split_path path PATH_SEPS <> []).
Proof.
  intros items path val. rewrite set_tokens. split.
  - rewrite <- split_path_nil_iff.
    destruct (_split_path path PATH_SEPS); split; intro H;
      try reflexivity; discriminate.
  - destruct (_split_path path PATH_SEPS) as [|tok rest]; split.
    + intros [items' H]. discriminate.
    + intro H. contradiction.
    + intros _. discriminate.
    + intros _. eexists. reflexivity.
Qed.

(** X10.  After [set_] on a path whose tokens unescaping leaves unchanged
    (for instance a path without "~"), [get] on the same path returns the
    value that was set. *)
Theorem get_after_set : forall o items path val items',
  set_ items path val PATH_SEPS = Ret items' ->
  (Forall (fun tok => _jsnp_unescape tok = tok) (_split_path path PATH_SEPS)
   \/ str_contains "~" path = false) ->
  get (PDict (builtin_class o) items') path = Ret (val, "").
Proof.
  intros o items path val items' Hset Hfix.
  assert (Hfix' : Forall (fun tok => _jsnp_unescape tok = tok)
                         (_split_path path PATH_SEPS)).
  { destruct Hfix as [H|H]; [exact H|].
    eapply Forall_impl; [|apply (split_path_tokens_without "~" path H)].
    intros tok Htok. apply unescape_without_tilde. exact Htok. }
  rewrite set_tokens in Hset. unfold get.
  rewrite (map_unescape_fixed _ Hfix').
  destruct (_split_path path PATH_SEPS) as [|tok rest]; [discriminate|].
  inversion Hset. subst items'.
  rewrite (get_items_head_entry (builtin_class o) _ DictPlain
             [(tok, nest rest val)] tok rest).
  - apply (get_items_nest (tok :: rest) val). discriminate.
  - rewrite dict_lookup_set_same. simpl. rewrite String.eqb_refl. reflexivity.
Qed.

Lemma get_after_set_witness :
  exists items',
    set_ [("a", PInt 1); ("b", PDict DictPlain [("c", PInt 2)])] "a.b.d"
         (PInt 3) PATH_SEPS = Ret items'
    /\ get (PDict DictPlain items') "a.b.d" = Ret (PInt 3, "").
Proof.
  eexists. split; [reflexivity|].
  apply (get_after_set false
           [("a", PInt 1); ("b", PDict DictPlain [("c", PInt 2)])]
           "a.b.d" (PInt 3)).
  - reflexivity.
  - right. reflexivity.
Defined.

(** X11.  [set_] replaces the whole entry of the first token by the
    single-branch nesting of the remaining tokens: what the mapping held
    under that key before is gone, so a sibling of the target is no longer
    found. *)
Theorem set_overwrites_entry : forall o items path val items' tok rest,
  set_ items path val PATH_SEPS = Ret items' ->
  _split_path path PATH_SEPS = tok :: rest ->
  dict_lookup tok items' = Some (nest rest val)
  /\ forall t2 rest' sibling,
       rest = t2 :: rest' -> sibling <> t2 ->
       exists msg,
         get_items (PDict (builtin_class o) items') [tok; sibling]
         = Ret (PNone, msg)
         /\ msg <> "".
Proof.
  intros o items path val items' tok rest Hset Hsplit.
  rewrite set_tokens, Hsplit in Hset. inversion Hset. subst items'.
  split; [apply dict_lookup_set_same|].
  intros t2 rest' sibling Hrest Hsib. subst rest.
  exists (py_repr sibling). split; [|discriminate].
  rewrite get_items_multi.
  cbn [removelast last reduce_getitem getitem].
  rewrite dict_lookup_set_same.
  cbn [bind nest is_list_like andb getitem dict_lookup].
  assert (Hl : String.eqb t2 sibling = false).
  { apply String.eqb_neq. congruence. }
  rewrite Hl. reflexivity.
Qed.

Lemma set_overwrites_entry_witness :
  exists msg,
    get_items
      (PDict DictPlain
         (dict_set "b" (nest ["x"] (PInt 1))
            [("b", PDict DictPlain [("c", PInt 2)])]))
      ["b"; "c"]
    = Ret (PNone, msg)
    /\ msg <> "".
Proof.
  apply (proj2 (set_overwrites_entry false
                  [("b", PDict DictPlain [("c", PInt 2)])] "b.x" (PInt 1)
                  _ "b" ["x"] eq_refl eq_refl) "x" [] "c").
  - reflexivity.
  - discriminate.
Defined.

(** X12.  [set_] leaves every other top-level entry as it was, keeps the
    keys in their order (a new key goes last), and [get] on a path whose
    first token is another key sees no change. *)
Theorem set_frame : forall o items path val items' tok rest,
  set_ items path val PATH_SEPS = Ret items' ->
  _split_path path PATH_SEPS = tok :: rest ->
  (forall k, k <> tok -> dict_lookup k items' = dict_lookup k items)
  /\ map fst items'
     = (if existsb (String.eqb tok) (map fst items) then map fst items
        else map fst items ++ [tok])
  /\ (forall path2 tok2 rest2,
        map _jsnp_unescape (_split_path path2 PATH_SEPS) = tok2 :: rest2 ->
        tok2 <> tok ->
        get (PDict (builtin_class o) items') path2
        = get (PDict (builtin_class o) items) path2).
Proof.
  intros o items path val items' tok rest Hset Hsplit.
  rewrite set_tokens, Hsplit in Hset. inversion Hset. subst items'.
  split; [|split].
  - intros k Hk. apply dict_lookup_set_other. exact Hk.
  - apply dict_set_keys.
  - intros path2 tok2 rest2 Htoks Hne. unfold get. rewrite Htoks.
    apply get_items_head_entry. apply dict_lookup_set_other. exact Hne.
Qed.

Lemma set_frame_witness :
  get (PDict DictPlain
         (dict_set "a" (nest ["b"; "d"] (PInt 3))
            [("a", PInt 1); ("b", PDict DictPlain [("c", PInt 2)])]))
      "b.c"
  = get (PDict DictPlain [("a", PInt 1); ("b", PDict DictPlain [("c", PInt 2)])])
        "b.c".
Proof.
  apply (proj2 (proj2 (set_frame false
                  [("a", PInt 1); ("b", PDict DictPlain [("c", PInt 2)])]
                  "a.b.d" (PInt 3) _ "a" ["b"; "d"] eq_refl eq_refl))
           "b.c" "b" ["c"]).
  - reflexivity.
  - discriminate.
Defined.

(** ** Mappings built by assignment *)

Lemma mapM_Ret_Forall2 : forall (A B : Type) (f : A -> result B) l bs,
  mapM f l = Ret bs -> Forall2 (fun a b => f a = Ret b) l bs.
Proof.
  intros A B f l. induction l as [|a r IH]; intros bs H; simpl in H.
  - inversion H. constructor.
  - destruct (f a) as [b|] eqn:Ea; simpl in H; [|discriminate].
    destruct (mapM f r) as [bs'|] eqn:Er; simpl in H; [|discriminate].
    inversion H. subst. constructor; [exact Ea|]. apply IH. reflexivity.
Qed.

Lemma mapM_fixed : forall (A : Type) (f : A -> result A) l,
  Forall (fun a => f a = Ret a) l -> mapM f l = Ret l.
Proof.
  intros A f l H. induction H as [|a r Ha _ IH]; simpl; [reflexivity|].
  rewrite Ha. simpl. rewrite IH. reflexivity.
Qed.

Lemma keys_distinct_NoDup : forall keys,
  keys_distinct keys = true <-> NoDup keys.
Proof.
  induction keys as [|k r IH]; simpl.
  - split; [constructor|reflexivity].
  - rewrite andb_true_iff, negb_true_iff, IH. split.
    + intros [Hk Hr]. constructor; [|exact Hr].
      intro Hin. apply existsb_eqb_In in Hin. congruence.
    + intro H. inversion H as [|x l Hk Hr]; subst. split; [|exact Hr].
      destruct (existsb (String.eqb k) r) eqn:E; [|reflexivity].
      apply existsb_eqb_In in E. contradiction.
Qed.

Lemma NoDup_snoc : forall (k : string) l,
  NoDup l -> ~ In k l -> NoDup (l ++ [k]).
Proof.
  intros k l H Hk. induction H as [|x l Hx _ IH]; simpl.
  - constructor; [intros []|constructor].
  - constructor.
    + intro Hin. apply in_app_or in Hin. destruct Hin as [Hin|[->|[]]].
      * contradiction.
      * apply Hk. left. reflexivity.
    + apply IH. intro Hin. apply Hk. right. exact Hin.
Qed.

Lemma dict_set_NoDup : forall k v items,
  NoDup (map fst items) -> NoDup (map fst (dict_set k v items)).
Proof.
  intros k v items H. rewrite dict_set_keys.
  destruct (existsb (String.eqb k) (map fst items)) eqn:E; [exact H|].
  apply NoDup_snoc; [exact H|].
  intro Hin. apply existsb_eqb_In in Hin. congruence.
Qed.

Lemma dict_set_values : forall (Q : pyval -> Prop) k v items,
  Forall (fun kv => Q (snd kv)) items -> Q v ->
  Forall (fun kv => Q (snd kv)) (dict_set k v items).
Proof.
  intros Q k v items H Hv. induction H as [|[k' v'] r Hkv Hr IH]; simpl.
  - constructor; [exact Hv|constructor].
  - destruct (String.eqb k' k).
    + constructor; [exact Hv|exact Hr].
    + constructor; [exact Hkv|exact IH].
Qed.

Lemma dict_update_invariant : forall (Q : pyval -> Prop) other items,
  NoDup (map fst items) -> Forall (fun kv => Q (snd kv)) items ->
  Forall (fun kv => Q (snd kv)) other ->
  NoDup (map fst (dict_update items other))
  /\ Forall (fun kv => Q (snd kv)) (dict_update items other).
Proof.
  intros Q other. unfold dict_update.
  induction other as [|[k v] r IH]; intros items Hnd Hq Ho; simpl.
  - split; assumption.
  - inversion Ho as [|x l Hv Hr]; subst. apply IH.
    + apply dict_set_NoDup. exact Hnd.
    + apply dict_set_values; assumption.
    + exact Hr.
Qed.

(** A mapping built from pairs has distinct keys, and its values are among
    the values of the pairs. *)
Lemma dict_of_items_invariant : forall (Q : pyval -> Prop) pairs,
  Forall (fun kv => Q (snd kv)) pairs ->
  NoDup (map fst (dict_of_items pairs))
  /\ Forall (fun kv => Q (snd kv)) (dict_of_items pairs).
Proof.
  intros Q pairs H.
  apply (dict_update_invariant Q pairs []); [constructor|constructor|exact H].
Qed.

(** ** What [make] returns *)

Lemma make_Ret_strategy : forall v ordered merge key t,
  make v ordered merge key = Ret t -> is_merge_strategy merge = true.
Proof.
  intros v ordered merge key t H.
  destruct (is_merge_strategy merge) eqn:E; [reflexivity|].
  rewrite make_wrong_strategy in H by exact E. discriminate.
Qed.

Lemma forallb_Forall2_lifted : forall (P : pyval -> bool) (f : pyval -> result pyval) xs ys,
  Forall (fun x => forall t, f x = Ret t -> P t = true) xs ->
  Forall2 (fun x y => f x = Ret y) xs ys ->
  forallb P ys = true.
Proof.
  intros P f xs ys Hall H. induction H as [|x y xs ys Hxy _ IH]; simpl.
  - reflexivity.
  - inversion Hall as [|a l Hx Hr]; subst.
    rewrite (Hx y Hxy). simpl. apply IH. exact Hr.
Qed.

Lemma forallb_values : forall (P : pyval -> bool) (items : list (string * pyval)),
  Forall (fun kv => P (snd kv) = true) items ->
  forallb (fun kv => P (snd kv)) items = true.
Proof.
  intros P items H. apply forallb_forall. rewrite Forall_forall in H. exact H.
Qed.

Lemma lifted_by_weaken : forall (p q : string -> bool) ordered,
  (forall m, p m = true -> q m = true) ->
  forall t, lifted_by p ordered t = true -> lifted_by q ordered t = true.
Proof.
  intros p q ordered Hpq.
  induction t as [| b | n | s | xs IH | xs IH | cls items IH
                  | name fields IH |] using pyval_nested_ind;
    intro H; try discriminate; try reflexivity.
  - simpl in *. rewrite forallb_forall in *.
    rewrite Forall_forall in IH. intros x Hx. apply IH; [exact Hx|].
    apply H. exact Hx.
  - simpl in *. rewrite forallb_forall in *.
    rewrite Forall_forall in IH. intros x Hx. apply IH; [exact Hx|].
    apply H. exact Hx.
  - simpl in *. destruct cls as [| |m o]; try discriminate.
    apply andb_true_iff in H. destruct H as [H Hvals].
    apply andb_true_iff in H. destruct H as [H Hnd].
    apply andb_true_iff in H. destruct H as [Hp Ho].
    rewrite (Hpq m Hp), Ho, Hnd. simpl.
    rewrite forallb_forall in *. rewrite Forall_forall in IH.
    intros kv Hkv. specialize (Hvals kv Hkv).
    destruct (is_None (snd kv)); [reflexivity|].
    simpl in *. apply IH; [exact Hkv|exact Hvals].
Qed.

(** The invariant of [make] for a set of policies that holds the requested
    one and, when the data hold a record, the default one. *)
Lemma make_lifted_by : forall ordered (p : string -> bool) v,
  p MS_DICTS = true \/ record_free v = true ->
  forall merge key t,
    p merge = true ->
    make v ordered merge key = Ret t -> lifted_by p ordered t = true.
Proof.
  intros ordered p.
  induction v as [| b | n | s | xs IH | xs IH | cls items IH
                  | name fields IH |] using pyval_nested_ind;
    intros Hc merge key t Hp H;
    pose proof (make_Ret_strategy _ _ _ _ _ H) as Hm;
    simpl in H; rewrite Hm in H; simpl in H.
  - inversion H. simpl. rewrite Hp. destruct ordered; reflexivity.
  - inversion H. reflexivity.
  - inversion H. reflexivity.
  - inversion H. reflexivity.
  - destruct (mapM _ xs) as [ys|] eqn:E; simpl in H; inversion H.
    apply mapM_Ret_Forall2 in E. simpl.
    eapply forallb_Forall2_lifted; [|exact E].
    rewrite Forall_forall in IH |- *. intros x Hx t' Ht'.
    apply (IH x Hx) with (merge := merge) (key := key); try assumption.
    destruct Hc as [Hc|Hc]; [left; exact Hc|right].
    simpl in Hc. rewrite forallb_forall in Hc. apply Hc. exact Hx.
  - destruct (mapM _ xs) as [ys|] eqn:E; simpl in H; inversion H.
    apply mapM_Ret_Forall2 in E. simpl.
    eapply forallb_Forall2_lifted; [|exact E].
    rewrite Forall_forall in IH |- *. intros x Hx t' Ht'.
    apply (IH x Hx) with (merge := merge) (key := key); try assumption.
    destruct Hc as [Hc|Hc]; [left; exact Hc|right].
    simpl in Hc. rewrite forallb_forall in Hc. apply Hc. exact Hx.
  - destruct (mapM _ items) as [pairs|] eqn:E; simpl in H; inversion H.
    apply mapM_Ret_Forall2 in E.
    assert (Hitems : Forall (fun kv => p MS_DICTS = true
                                       \/ record_free (snd kv) = true) items).
    { apply Forall_forall. intros kv Hkv.
      destruct Hc as [Hc|Hc]; [left; exact Hc|right].
      simpl in Hc. rewrite forallb_forall in Hc. apply Hc. exact Hkv. }
    assert (Hpairs : Forall (fun kv => (fun v => is_None v
                                                 || lifted_by p ordered v = true)
                                         (snd kv)) pairs).
    { clear H H1 Hc. induction E as [|[k v] q items pairs Hq _ IHE].
      - constructor.
      - inversion IH as [|a l Hv Hr]; subst.
        inversion Hitems as [|a l Hcv Hcr]; subst.
        constructor; [|apply IHE; assumption].
        simpl in Hq, Hv, Hcv. destruct (is_None v).
        + simpl in Hq. inversion Hq. reflexivity.
        + destruct (make v ordered merge key) as [v'|] eqn:Ev; simpl in Hq;
            inversion Hq. simpl.
          rewrite (Hv Hcv merge key v' Hp Ev). apply orb_true_r. }
    destruct (dict_of_items_invariant _ pairs Hpairs) as [Hnd Hvals].
    simpl. unfold get_mdict_class. rewrite Hp.
    apply keys_distinct_NoDup in Hnd. rewrite Hnd.
    rewrite (forallb_values (fun v => is_None v || lifted_by p ordered v)
               _ Hvals).
    destruct ordered; reflexivity.
  - destruct Hc as [Hc|Hc]; [|discriminate].
    unfold _make_from_namedtuple_with in H.
    destruct (mapM _ fields) as [pairs|] eqn:E; simpl in H; inversion H.
    apply mapM_Ret_Forall2 in E.
    assert (Hpairs : Forall (fun kv => (fun v => is_None v
                                                 || lifted_by p ordered v = true)
                                         (snd kv)) pairs).
    { clear H H1. induction E as [|[k v] q fields pairs Hq _ IHE].
      - constructor.
      - inversion IH as [|a l Hv Hr]; subst.
        constructor; [|apply IHE; exact Hr].
        simpl in Hq, Hv.
        destruct (make v ordered MS_DICTS NAMEDTUPLE_CLS_KEY) as [v'|] eqn:Ev;
          simpl in Hq; inversion Hq. simpl.
        rewrite (Hv (or_introl Hc) MS_DICTS NAMEDTUPLE_CLS_KEY v' Hc Ev).
        apply orb_true_r. }
    destruct (dict_of_items_invariant _ pairs Hpairs) as [Hnd Hvals].
    simpl. unfold get_mdict_class. rewrite Hp.
    pose proof (dict_set_NoDup key (PStr name) _ Hnd) as Hnd'.
    apply keys_distinct_NoDup in Hnd'. rewrite Hnd'.
    rewrite (forallb_values (fun v => is_None v || lifted_by p ordered v)).
    + reflexivity.
    + apply (dict_set_values
               (fun v => is_None v || lifted_by p ordered v = true));
        [exact Hvals|reflexivity].
  - discriminate.
Qed.

(** With the default policy, or on data without record, every mapping of
    the result has the requested policy. *)
Lemma make_lifted_uniform : forall v ordered merge key t,
  merge = MS_DICTS \/ record_free v = true ->
  make v ordered merge key = Ret t ->
  lifted_by (String.eqb merge) ordered t = true.
Proof.
  intros v ordered merge key t Hc H.
  apply (make_lifted_by ordered (String.eqb merge) v) with (merge := merge)
                                                           (key := key).
  - destruct Hc as [Hc|Hc]; [left|right; exact Hc].
    subst merge. reflexivity.
  - apply String.eqb_refl.
  - exact H.
Qed.

(** X13.  Whatever [make] returns holds only Mergeable Mappings with
    distinct keys, ordered whenever [ordered] was requested, and neither a
    record nor a bare Null; every mapping has the requested policy or the
    default one, and the requested one throughout when the requested policy
    is the default or the data hold no record. *)
Theorem make_returns_lifted : forall v ordered merge key t,
  make v ordered merge key = Ret t ->
  lifted_by (requested_or_default merge) ordered t = true
  /\ (merge = MS_DICTS \/ record_free v = true ->
      lifted_by (String.eqb merge) ordered t = true).
Proof.
  intros v ordered merge key t H. split.
  - apply (make_lifted_by ordered (requested_or_default merge) v)
      with (merge := merge) (key := key).
    + left. unfold requested_or_default. rewrite String.eqb_refl.
      apply orb_true_r.
    + unfold requested_or_default. rewrite String.eqb_refl. reflexivity.
    + exact H.
  - intro Hc. eapply make_lifted_uniform; eassumption.
Qed.

Lemma make_returns_lifted_witness :
  lifted_by (requested_or_default MS_REPLACE) false
    (PDict (MDict MS_REPLACE true)
       [("a", PList [PDict (MDict MS_DICTS false) []]);
        (NAMEDTUPLE_CLS_KEY, PStr "Rec")]) = true.
Proof.
  apply (proj1 (make_returns_lifted (PNamedTuple "Rec" [("a", PList [PNone])])
                  false MS_REPLACE NAMEDTUPLE_CLS_KEY _ eq_refl)).
Defined.

Lemma is_None_eq : forall v, is_None v = true -> v = PNone.
Proof. intros [] H; try discriminate. reflexivity. Qed.

Lemma make_fixed_on_lifted : forall merge key,
  is_merge_strategy merge = true ->
  forall t, lifted_by (String.eqb merge) true t = true ->
    make t true merge key = Ret t.
Proof.
  intros merge key Hm.
  induction t as [| b | n | s | xs IH | xs IH | cls items IH
                  | name fields IH |] using pyval_nested_ind;
    intro Hl; try discriminate; simpl; rewrite Hm; simpl;
    try reflexivity.
  - simpl in Hl. rewrite forallb_forall in Hl.
    rewrite mapM_fixed; [reflexivity|].
    rewrite Forall_forall in IH |- *. intros x Hx.
    apply IH; [exact Hx|]. apply Hl. exact Hx.
  - simpl in Hl. rewrite forallb_forall in Hl.
    rewrite mapM_fixed; [reflexivity|].
    rewrite Forall_forall in IH |- *. intros x Hx.
    apply IH; [exact Hx|]. apply Hl. exact Hx.
  - simpl in Hl. destruct cls as [| |m o]; try discriminate.
    apply andb_true_iff in Hl. destruct Hl as [Hl Hvals].
    apply andb_true_iff in Hl. destruct Hl as [Hl Hnd].
    apply andb_true_iff in Hl. destruct Hl as [Hmm Ho].
    apply String.eqb_eq in Hmm. subst m.
    rewrite orb_false_r in Ho. subst o.
    rewrite forallb_forall in Hvals.
    rewrite mapM_fixed.
    + simpl. rewrite dict_of_items_distinct; [reflexivity|].
      apply keys_distinct_NoDup. exact Hnd.
    + rewrite Forall_forall in IH |- *. intros [k v] Hkv.
      specialize (IH _ Hkv). specialize (Hvals _ Hkv). simpl in *.
      destruct (is_None v) eqn:En.
      * apply is_None_eq in En. subst v. reflexivity.
      * simpl in Hvals. rewrite (IH Hvals). reflexivity.
Qed.

(** X14.  Lifting with [ordered] set is idempotent when the policy is the
    default one or the data hold no record: [make] applied to the tree
    that [make] returned gives that tree back. *)
Theorem make_idempotent : forall v merge key t,
  make v true merge key = Ret t ->
  merge = MS_DICTS \/ record_free v = true ->
  make t true merge key = Ret t.
Proof.
  intros v merge key t H Hc. apply make_fixed_on_lifted.
  - eapply make_Ret_strategy. exact H.
  - eapply make_lifted_uniform; eassumption.
Qed.

Lemma make_idempotent_witness :
  make (PDict (MDict MS_REPLACE true)
          [("a", PList [PDict (MDict MS_REPLACE true) []]); ("b", PNone)])
       true MS_REPLACE NAMEDTUPLE_CLS_KEY
  = Ret (PDict (MDict MS_REPLACE true)
           [("a", PList [PDict (MDict MS_REPLACE true) []]); ("b", PNone)]).
Proof.
  apply (make_idempotent
           (PDict DictPlain [("a", PList [PNone]); ("b", PNone)])
           MS_REPLACE NAMEDTUPLE_CLS_KEY).
  - reflexivity.
  - right. reflexivity.
Defined.

(** With another policy a second lifting changes the mappings held by a
    record: they were lifted with the default policy and take the
    requested one. *)
Lemma make_not_idempotent_policy :
  exists t t',
    make (PNamedTuple "Rec" [("b", PDict DictPlain [("x", PInt 1)])])
         true MS_REPLACE NAMEDTUPLE_CLS_KEY = Ret t
    /\ make t true MS_REPLACE NAMEDTUPLE_CLS_KEY = Ret t' /\ t' <> t.
Proof.
  eexists. eexists. split; [reflexivity|]. split; [reflexivity|discriminate].
Qed.

(** Without [ordered] a second lifting changes the mapping a record was
    lifted to: it loses its ordering. *)
Lemma make_not_idempotent_unordered :
  exists t t',
    make (PNamedTuple "Rec" [("a", PInt 1)]) false MS_DICTS NAMEDTUPLE_CLS_KEY
    = Ret t
    /\ make t false MS_DICTS NAMEDTUPLE_CLS_KEY = Ret t' /\ t' <> t.
Proof.
  eexists. eexists. split; [reflexivity|]. split; [reflexivity|discriminate].
Qed.

(** ** Mappings through [make] and [convert_to] *)

Lemma mapM_mapping_values : forall (ordered : bool) (merge key : string)
    (items : list (string * pyval)) lifted_vals,
  Forall2 (fun kv v' => if is_None (snd kv) then v' = PNone
                        else make (snd kv) ordered merge key = Ret v')
          items lifted_vals ->
  mapM (fun kv =>
          v <- (if is_None (snd kv) then Ret PNone
                else make (snd kv) ordered merge key) ;;
          Ret (fst kv, v)) items
  = Ret (combine (map fst items) lifted_vals).
Proof.
  intros ordered merge key items lifted_vals H.
  induction H as [|[k v] v' items lifted_vals Hv _ IH]; simpl.
  - reflexivity.
  - simpl in Hv. destruct (is_None v).
    + subst v'. simpl. rewrite IH. reflexivity.
    + rewrite Hv. simpl. rewrite IH. reflexivity.
Qed.

Lemma make_mapping_shape : forall cls items ordered merge key lifted_vals,
  is_merge_strategy merge = true ->
  NoDup (map fst items) ->
  Forall2 (fun kv v' => if is_None (snd kv) then v' = PNone
                        else make (snd kv) ordered merge key = Ret v')
          items lifted_vals ->
  make (PDict cls items) ordered merge key
  = Ret (PDict (MDict merge ordered) (combine (map fst items) lifted_vals)).
Proof.
  intros cls items ordered merge key lifted_vals Hm Hnd Hl.
  assert (Hlen : List.length (map fst items) = List.length lifted_vals).
  { rewrite length_map. eapply Forall2_same_length. exact Hl. }
  simpl. rewrite Hm. simpl.
  rewrite (mapM_mapping_values ordered merge key items lifted_vals Hl).
  simpl. rewrite dict_of_items_distinct by (rewrite map_fst_combine; assumption).
  reflexivity.
Qed.

(** X15.  [make] turns a mapping with distinct keys into a Mergeable
    Mapping of the requested policy and ordering with the same keys in the
    same order; a Null value stays Null, every other value is lifted. *)
Theorem make_mapping : forall cls items ordered merge key lifted_vals,
  In merge MERGE_STRATEGIES ->
  NoDup (map fst items) ->
  Forall2 (fun kv v' => if is_None (snd kv) then v' = PNone
                        else make (snd kv) ordered merge key = Ret v')
          items lifted_vals ->
  make (PDict cls items) ordered merge key
  = Ret (PDict (get_mdict_class merge ordered)
           (combine (map fst items) lifted_vals)).
Proof.
  intros cls items ordered merge key lifted_vals Hin.
  apply make_mapping_shape. apply is_merge_strategy_In. exact Hin.
Qed.

Lemma make_mapping_witness :
  make (PDict DictPlain [("x", PNone); ("y", PList [PNone])])
       false MS_REPLACE NAMEDTUPLE_CLS_KEY
  = Ret (PDict (MDict MS_REPLACE false)
           [("x", PNone); ("y", PList [PDict (MDict MS_REPLACE false) []])]).
Proof.
  apply (make_mapping DictPlain [("x", PNone); ("y", PList [PNone])]
           false MS_REPLACE NAMEDTUPLE_CLS_KEY
           [PNone; PList [PDict (MDict MS_REPLACE false) []]]).
  - simpl. left. reflexivity.
  - simpl. constructor.
    + simpl. intros [H|[]]. discriminate.
    + constructor; [simpl; tauto|constructor].
  - constructor; [reflexivity|]. constructor; [reflexivity|]. constructor.
Defined.

Lemma convert_to_mapping_shape : forall cls items ordered key vals,
  NoDup (map fst items) ->
  Forall2 (fun kv v' => convert_to (snd kv) ordered false key = Ret v')
          items vals ->
  convert_to (PDict cls items) ordered false key
  = Ret (PDict (builtin_class ordered) (combine (map fst items) vals)).
Proof.
  intros cls items ordered key vals Hnd Hv.
  assert (Hlen : List.length (map fst items) = List.length vals).
  { rewrite length_map. eapply Forall2_same_length. exact Hv. }
  simpl.
  rewrite (mapM_values (fun v => convert_to v ordered false key) items vals Hv).
  simpl. rewrite dict_of_items_distinct by (rewrite map_fst_combine; assumption).
  reflexivity.
Qed.

Lemma is_builtin_class_eq : forall ordered cls,
  is_builtin_class ordered cls = true -> cls = builtin_class ordered.
Proof.
  intros [] [] H; try discriminate; reflexivity.
Qed.

(** ** Lowering what was lifted *)

Lemma convert_to_make_plain : forall ordered merge key o,
  is_merge_strategy merge = true ->
  forall v, plain_data o v = true ->
    exists t, make v ordered merge key = Ret t
              /\ convert_to t o false key = Ret v.
Proof.
  intros ordered merge key o Hm.
  induction v as [| b | n | s | xs IH | xs IH | cls items IH
                  | name fields IH |] using pyval_nested_ind;
    intro Hp; try discriminate.
  - exists (PBool b). simpl. rewrite Hm. split; reflexivity.
  - exists (PInt n). simpl. rewrite Hm. split; reflexivity.
  - exists (PStr s). simpl. rewrite Hm. split; reflexivity.
  - simpl in Hp. rewrite forallb_forall in Hp.
    destruct (Forall_exists_Forall2 _ _
                (fun x t => make x ordered merge key = Ret t
                            /\ convert_to t o false key = Ret x) xs)
      as [ts Hts].
    { rewrite Forall_forall in IH |- *. intros x Hx.
      apply IH; [exact Hx|]. apply Hp. exact Hx. }
    exists (PList ts). split.
    + simpl. rewrite Hm. simpl.
      rewrite (mapM_Forall2 _ _ (fun v => make v ordered merge key) xs ts).
      * reflexivity.
      * eapply Forall2_impl; [|exact Hts]. intros a b' [H _]. exact H.
    + simpl.
      rewrite (mapM_Forall2 _ _ (fun v => convert_to v o false key) ts xs).
      * reflexivity.
      * apply Forall2_flip.
        eapply Forall2_impl; [|exact Hts]. intros a b' [_ H]. exact H.
  - simpl in Hp. rewrite forallb_forall in Hp.
    destruct (Forall_exists_Forall2 _ _
                (fun x t => make x ordered merge key = Ret t
                            /\ convert_to t o false key = Ret x) xs)
      as [ts Hts].
    { rewrite Forall_forall in IH |- *. intros x Hx.
      apply IH; [exact Hx|]. apply Hp. exact Hx. }
    exists (PTuple ts). split.
    + simpl. rewrite Hm. simpl.
      rewrite (mapM_Forall2 _ _ (fun v => make v ordered merge key) xs ts).
      * reflexivity.
      * eapply Forall2_impl; [|exact Hts]. intros a b' [H _]. exact H.
    + simpl.
      rewrite (mapM_Forall2 _ _ (fun v => convert_to v o false key) ts xs).
      * reflexivity.
      * apply Forall2_flip.
        eapply Forall2_impl; [|exact Hts]. intros a b' [_ H]. exact H.
  - simpl in Hp.
    apply andb_true_iff in Hp. destruct Hp as [Hp Hvals].
    apply andb_true_iff in Hp. destruct Hp as [Hcls Hnd].
    apply is_builtin_class_eq in Hcls. apply keys_distinct_NoDup in Hnd.
    rewrite forallb_forall in Hvals.
    destruct (Forall_exists_Forall2 _ _
                (fun (kv : string * pyval) t =>
                   (if is_None (snd kv) then t = PNone
                    else make (snd kv) ordered merge key = Ret t)
                   /\ convert_to t o false key = Ret (snd kv)) items)
      as [ts Hts].
    { rewrite Forall_forall in IH |- *. intros [k v] Hkv.
      specialize (IH _ Hkv). specialize (Hvals _ Hkv). simpl in *.
      destruct (is_None v) eqn:En.
      - apply is_None_eq in En. subst v. exists PNone. split; reflexivity.
      - simpl in Hvals. apply IH. exact Hvals. }
    assert (Hlen : List.length (map fst items) = List.length ts).
    { rewrite length_map. eapply Forall2_same_length. exact Hts. }
    eexists. split.
    + apply make_mapping_shape; try assumption.
      eapply Forall2_impl; [|exact Hts]. intros a b' [H _]. exact H.
    + rewrite (convert_to_mapping_shape _ _ o key (map snd items)).
      * rewrite map_fst_combine by exact Hlen.
        rewrite combine_fst_snd, Hcls. reflexivity.
      * rewrite map_fst_combine by exact Hlen. exact Hnd.
      * apply (Forall2_combine_values
                 (fun t x => convert_to t o false key = Ret x)).
        eapply Forall2_impl; [|exact Hts]. intros a b' [_ H]. exact H.
Qed.

(** X16.  Plain data come back unchanged from [make] followed by
    [convert_to] without record reconstruction: scalars, sequences, and
    built-in mappings of the class [convert_to] is asked for, with Null
    only as a value of a mapping. *)
Theorem convert_to_make_roundtrip : forall v ordered merge key o,
  In merge MERGE_STRATEGIES ->
  plain_data o v = true ->
  exists t, make v ordered merge key = Ret t
            /\ convert_to t o false key = Ret v.
Proof.
  intros v ordered merge key o Hin Hp.
  apply convert_to_make_plain; [|exact Hp].
  apply is_merge_strategy_In. exact Hin.
Qed.

Lemma convert_to_make_roundtrip_witness :
  exists t,
    make (PDict DictOrdered [("x", PNone); ("y", PList [PInt 1])])
         false MS_DICTS NAMEDTUPLE_CLS_KEY = Ret t
    /\ convert_to t true false NAMEDTUPLE_CLS_KEY
       = Ret (PDict DictOrdered [("x", PNone); ("y", PList [PInt 1])]).
Proof.
  apply (convert_to_make_roundtrip
           (PDict DictOrdered [("x", PNone); ("y", PList [PInt 1])])
           false MS_DICTS NAMEDTUPLE_CLS_KEY true).
  - simpl. right. right. left. reflexivity.
  - reflexivity.
Defined.

(** Null inside a sequence does not come back: it is lifted to an empty
    mapping. *)
Lemma convert_to_make_null_in_list :
  exists t,
    make (PList [PNone]) false MS_DICTS NAMEDTUPLE_CLS_KEY = Ret t
    /\ convert_to t false false NAMEDTUPLE_CLS_KEY
       = Ret (PList [PDict DictPlain []]).
Proof. eexists. split; reflexivity. Qed.

Lemma is_builtin_class_refl : forall ordered,
  is_builtin_class ordered (builtin_class ordered) = true.
Proof. intros []; reflexivity. Qed.

Lemma convert_to_builtin : forall o key t p,
  convert_to t o false key = Ret p -> builtin_only o p = true.
Proof.
  intros o key.
  induction t as [| b | n | s | xs IH | xs IH | cls items IH
                  | name fields IH |] using pyval_nested_ind;
    intros p H; simpl in H.
  - inversion H. reflexivity.
  - inversion H. reflexivity.
  - inversion H. reflexivity.
  - inversion H. reflexivity.
  - destruct (mapM _ xs) as [ys|] eqn:E; simpl in H; inversion H.
    apply mapM_Ret_Forall2 in E. simpl.
    eapply forallb_Forall2_lifted; [exact IH|exact E].
  - destruct (mapM _ xs) as [ys|] eqn:E; simpl in H; inversion H.
    apply mapM_Ret_Forall2 in E. simpl.
    eapply forallb_Forall2_lifted; [exact IH|exact E].
  - destruct (mapM _ items) as [pairs|] eqn:E; simpl in H; inversion H.
    apply mapM_Ret_Forall2 in E.
    assert (Hpairs : Forall (fun kv => (fun v => builtin_only o v = true) (snd kv)) pairs).
    { clear H H1. induction E as [|[k v] q items pairs Hq _ IHE].
      - constructor.
      - inversion IH as [|a l Hv Hr]; subst. constructor; [|apply IHE; exact Hr].
        simpl in Hq, Hv.
        destruct (convert_to v o false key) as [v'|] eqn:Ev; simpl in Hq;
          inversion Hq. simpl. apply (Hv v' eq_refl). }
    destruct (dict_of_items_invariant _ pairs Hpairs) as [_ Hvals].
    simpl.
    assert (Hc : is_builtin_class o (if o then DictOrdered else DictPlain) = true)
      by apply is_builtin_class_refl.
    rewrite Hc. simpl.
    apply (forallb_values (builtin_only o) _ Hvals).
  - destruct fields as [|[f v] [|kv2 r]]; inversion H. reflexivity.
  - discriminate.
Qed.

(** X17.  Whatever [convert_to] returns without record reconstruction holds
    no Mergeable Mapping: every mapping in it is a built-in mapping of the
    class the [ordered] flag selects. *)
Theorem convert_to_returns_builtin : forall t o key p,
  convert_to t o false key = Ret p -> builtin_only o p = true.
Proof. intros t o key p. apply convert_to_builtin. Qed.

Lemma convert_to_returns_builtin_witness :
  builtin_only true
    (PDict DictOrdered [("a", PList [PDict DictOrdered []])]) = true.
Proof.
  apply (convert_to_returns_builtin
           (PDict (MDict MS_DICTS false)
              [("a", PList [PDict (MDict MS_DICTS true) []])])
           true NAMEDTUPLE_CLS_KEY).
  reflexivity.
Defined.

Lemma convert_to_None_inv : forall t o key,
  convert_to t o false key = Ret PNone -> t = PNone.
Proof.
  intros t o key H. destruct t; simpl in H; try discriminate.
  - reflexivity.
  - destruct (mapM _ xs); simpl in H; discriminate.
  - destruct (mapM _ xs); simpl in H; discriminate.
  - destruct (mapM _ items); simpl in H; discriminate.
  - destruct fields as [|[f v] [|kv2 r]]; discriminate.
Qed.

Lemma make_convert_to_lifted : forall merge key o,
  is_merge_strategy merge = true ->
  forall t, lifted_by (String.eqb merge) true t = true ->
    exists p, convert_to t o false key = Ret p
              /\ make p true merge key = Ret t.
Proof.
  intros merge key o Hm.
  induction t as [| b | n | s | xs IH | xs IH | cls items IH
                  | name fields IH |] using pyval_nested_ind;
    intro Hl; try discriminate.
  - exists (PBool b). simpl. rewrite Hm. split; reflexivity.
  - exists (PInt n). simpl. rewrite Hm. split; reflexivity.
  - exists (PStr s). simpl. rewrite Hm. split; reflexivity.
  - simpl in Hl. rewrite forallb_forall in Hl.
    destruct (Forall_exists_Forall2 _ _
                (fun x q => convert_to x o false key = Ret q
                            /\ make q true merge key = Ret x) xs)
      as [qs Hqs].
    { rewrite Forall_forall in IH |- *. intros x Hx.
      apply IH; [exact Hx|]. apply Hl. exact Hx. }
    exists (PList qs). split.
    + simpl.
      rewrite (mapM_Forall2 _ _ (fun v => convert_to v o false key) xs qs).
      * reflexivity.
      * eapply Forall2_impl; [|exact Hqs]. intros a b' [H _]. exact H.
    + simpl. rewrite Hm. simpl.
      rewrite (mapM_Forall2 _ _ (fun v => make v true merge key) qs xs).
      * reflexivity.
      * apply Forall2_flip.
        eapply Forall2_impl; [|exact Hqs]. intros a b' [_ H]. exact H.
  - simpl in Hl. rewrite forallb_forall in Hl.
    destruct (Forall_exists_Forall2 _ _
                (fun x q => convert_to x o false key = Ret q
                            /\ make q true merge key = Ret x) xs)
      as [qs Hqs].
    { rewrite Forall_forall in IH |- *. intros x Hx.
      apply IH; [exact Hx|]. apply Hl. exact Hx. }
    exists (PTuple qs). split.
    + simpl.
      rewrite (mapM_Forall2 _ _ (fun v => convert_to v o false key) xs qs).
      * reflexivity.
      * eapply Forall2_impl; [|exact Hqs]. intros a b' [H _]. exact H.
    + simpl. rewrite Hm. simpl.
      rewrite (mapM_Forall2 _ _ (fun v => make v true merge key) qs xs).
      * reflexivity.
      * apply Forall2_flip.
        eapply Forall2_impl; [|exact Hqs]. intros a b' [_ H]. exact H.
  - simpl in Hl. destruct cls as [| |m ord]; try discriminate.
    apply andb_true_iff in Hl. destruct Hl as [Hl Hvals].
    apply andb_true_iff in Hl. destruct Hl as [Hl Hnd].
    apply andb_true_iff in Hl. destruct Hl as [Hmm Ho].
    apply String.eqb_eq in Hmm. subst m.
    rewrite orb_false_r in Ho. subst ord.
    apply keys_distinct_NoDup in Hnd.
    rewrite forallb_forall in Hvals.
    destruct (Forall_exists_Forall2 _ _
                (fun (kv : string * pyval) q =>
                   convert_to (snd kv) o false key = Ret q
                   /\ (if is_None q then snd kv = PNone
                       else make q true merge key = Ret (snd kv))) items)
      as [qs Hqs].
    { rewrite Forall_forall in IH |- *. intros [k v] Hkv.
      specialize (IH _ Hkv). specialize (Hvals _ Hkv). simpl in *.
      destruct (is_None v) eqn:En.
      - apply is_None_eq in En. subst v. exists PNone. split; reflexivity.
      - simpl in Hvals. destruct (IH Hvals) as [q [Hc Hmk]].
        exists q. split; [exact Hc|].
        destruct (is_None q) eqn:Eq; [|exact Hmk].
        apply is_None_eq in Eq. subst q.
        apply convert_to_None_inv in Hc. subst v. discriminate. }
    assert (Hlen : List.length (map fst items) = List.length qs).
    { rewrite length_map. eapply Forall2_same_length. exact Hqs. }
    eexists. split.
    + apply convert_to_mapping_shape; [exact Hnd|].
      eapply Forall2_impl; [|exact Hqs]. intros a b' [H _]. exact H.
    + rewrite (make_mapping_shape _ _ true merge key (map snd items) Hm).
      * rewrite map_fst_combine by exact Hlen.
        rewrite combine_fst_snd. reflexivity.
      * rewrite map_fst_combine by exact Hlen. exact Hnd.
      * apply (Forall2_combine_values
                 (fun q x => if is_None q then x = PNone
                             else make q true merge key = Ret x)).
        eapply Forall2_impl; [|exact Hqs]. intros a b' [_ H]. exact H.
Qed.

(** X18.  A tree [make] returned with [ordered] set, for the default policy
    or from data without record, is lowered by [convert_to] without record
    reconstruction, and lifting the plain data again gives the tree
    back. *)
Theorem make_convert_to_make : forall v merge key o t,
  make v true merge key = Ret t ->
  merge = MS_DICTS \/ record_free v = true ->
  exists p, convert_to t o false key = Ret p
            /\ make p true merge key = Ret t.
Proof.
  intros v merge key o t H Hc. apply make_convert_to_lifted.
  - eapply make_Ret_strategy. exact H.
  - eapply make_lifted_uniform; eassumption.
Qed.

Lemma make_convert_to_make_witness :
  exists p,
    convert_to (PDict (MDict MS_DICTS true)
                  [("a", PInt 1); (NAMEDTUPLE_CLS_KEY, PStr "Rec")])
               false false NAMEDTUPLE_CLS_KEY = Ret p
    /\ make p true MS_DICTS NAMEDTUPLE_CLS_KEY
       = Ret (PDict (MDict MS_DICTS true)
                [("a", PInt 1); (NAMEDTUPLE_CLS_KEY, PStr "Rec")]).
Proof.
  apply (make_convert_to_make (PNamedTuple "Rec" [("a", PInt 1)])
           MS_DICTS NAMEDTUPLE_CLS_KEY false).
  - reflexivity.
  - left. reflexivity.
Defined.

(** ** Ordinary keys and ordinary data *)

(** X19.  Unescaping leaves a text without "~" as it is: keys that use no
    escape are looked up under their own name. *)
Theorem jsnp_unescape_plain : forall s,
  str_contains "~" s = false -> _jsnp_unescape s = s.
Proof. exact unescape_without_tilde. Qed.

Lemma jsnp_unescape_plain_witness : _jsnp_unescape "a.b/c" = "a.b/c".
Proof. apply (jsnp_unescape_plain "a.b/c"). reflexivity. Defined.

Lemma make_total_generator_free : forall ordered obj,
  generator_free obj = true ->
  forall merge key, is_merge_strategy merge = true ->
    exists t, make obj ordered merge key = Ret t.
Proof.
  intros ordered.
  induction obj as [| b | n | s | xs IH | xs IH | cls items IH
                    | name fields IH |] using pyval_nested_ind;
    intros Hg merge key Hm; try discriminate; simpl; rewrite Hm; simpl;
    try (eexists; reflexivity).
  - simpl in Hg. rewrite forallb_forall in Hg.
    destruct (Forall_exists_Forall2 _ _
                (fun x t => make x ordered merge key = Ret t) xs) as [ts Hts].
    { rewrite Forall_forall in IH |- *. intros x Hx.
      apply IH; [exact Hx| |exact Hm]. apply Hg. exact Hx. }
    rewrite (mapM_Forall2 _ _ (fun v => make v ordered merge key) xs ts Hts).
    eexists. reflexivity.
  - simpl in Hg. rewrite forallb_forall in Hg.
    destruct (Forall_exists_Forall2 _ _
                (fun x t => make x ordered merge key = Ret t) xs) as [ts Hts].
    { rewrite Forall_forall in IH |- *. intros x Hx.
      apply IH; [exact Hx| |exact Hm]. apply Hg. exact Hx. }
    rewrite (mapM_Forall2 _ _ (fun v => make v ordered merge key) xs ts Hts).
    eexists. reflexivity.
  - simpl in Hg. rewrite forallb_forall in Hg.
    destruct (Forall_exists_Forall2 _ _
                (fun (kv : string * pyval) t =>
                   if is_None (snd kv) then t = PNone
                   else make (snd kv) ordered merge key = Ret t) items)
      as [ts Hts].
    { rewrite Forall_forall in IH |- *. intros [k v] Hkv.
      specialize (IH _ Hkv). specialize (Hg _ Hkv). simpl in *.
      destruct (is_None v); [exists PNone; reflexivity|].
      apply IH; [exact Hg|exact Hm]. }
    rewrite (mapM_mapping_values ordered merge key items ts Hts).
    eexists. reflexivity.
  - simpl in Hg. rewrite forallb_forall in Hg.
    destruct (Forall_exists_Forall2 _ _
                (fun (kv : string * pyval) t =>
                   make (snd kv) ordered MS_DICTS NAMEDTUPLE_CLS_KEY = Ret t)
                fields)
      as [ts Hts].
    { rewrite Forall_forall in IH |- *. intros kv Hkv.
      apply IH; [exact Hkv| |exact MS_DICTS_is_strategy].
      apply Hg. exact Hkv. }
    unfold _make_from_namedtuple_with.
    rewrite (mapM_values (fun v => make v ordered MS_DICTS NAMEDTUPLE_CLS_KEY)
               fields ts Hts).
    eexists. reflexivity.
Qed.

(** X20.  With one of the four merge strategies [make] never fails on data
    made of Null, scalars, sequences, mappings and records: it returns a
    tree. *)
Theorem make_returns_on_data : forall obj ordered merge key,
  In merge MERGE_STRATEGIES ->
  generator_free obj = true ->
  exists t, make obj ordered merge key = Ret t.
Proof.
  intros obj ordered merge key Hin Hg.
  apply make_total_generator_free; [exact Hg|].
  apply is_merge_strategy_In. exact Hin.
Qed.

Lemma make_returns_on_data_witness :
  exists t,
    make (PTuple [PNone; PNamedTuple "R" [("namedtuple_cls__", PInt 1)]])
         false MS_NO_REPLACE NAMEDTUPLE_CLS_KEY = Ret t.
Proof.
  apply (make_returns_on_data
           (PTuple [PNone; PNamedTuple "R" [("namedtuple_cls__", PInt 1)]])
           false MS_NO_REPLACE NAMEDTUPLE_CLS_KEY).
  - simpl. right. left. reflexivity.
  - reflexivity.
Defined.
